(** * slogtrace: an OpenTelemetry span exporter that writes through slog

    A shallow embedding of [slogtrace/exporter.go] and of the parts of the
    packages it calls, followed by the properties of the exporter.

    Conventions.
    - Go's [int64], [float64] and [uintptr] are carried as [Z]; a [float64]
      is carried as its IEEE-754 bit pattern, which is how the attribute
      package stores it.
    - A Go [error] is an [option]: [None] is [nil].
    - The exporter is modelled sequentially: [stoppedMu] only protects the
      flag against concurrent access and has no sequential effect.
    - The logging backend is state: each call of [Handle] is recorded, with
      its outcome, in the order in which it happens.
    - A [time.Time] keeps its wall clock reading and its monotonic clock
      reading apart, as Go does. *)

From Stdlib Require Import ZArith List String Ascii Bool Lia.
From Stdlib Require Import DecimalString Permutation Sorted.
Import ListNotations.

Open Scope string_scope.
Open Scope list_scope.
Open Scope Z_scope.

(** ** Errors *)

Inductive Err : Type :=
| Canceled
| DeadlineExceeded
| HandlerError (msg : string).

Definition error : Type := option Err.

(** ** Package [go.opentelemetry.io/otel/attribute] *)

Module attribute.

(** [attribute.Type]: the kind of a value; [INVALID] is the kind of the
    zero [Value]. *)
Inductive Type_ : Type :=
| INVALID | BOOL | INT64 | FLOAT64 | STRING
| BOOLSLICE | INT64SLICE | FLOAT64SLICE | STRINGSLICE.

Inductive Value : Type :=
| ZeroValue
| BoolValue (v : bool)
| Int64Value (v : Z)
| Float64Value (bits : Z)
| StringValue (v : string)
| BoolSliceValue (v : list bool)
| Int64SliceValue (v : list Z)
| Float64SliceValue (bits : list Z)
| StringSliceValue (v : list string).

(** The method [Value.Type]. *)
Definition Value_Type (v : Value) : Type_ :=
  match v with
  | ZeroValue => INVALID
  | BoolValue _ => BOOL
  | Int64Value _ => INT64
  | Float64Value _ => FLOAT64
  | StringValue _ => STRING
  | BoolSliceValue _ => BOOLSLICE
  | Int64SliceValue _ => INT64SLICE
  | Float64SliceValue _ => FLOAT64SLICE
  | StringSliceValue _ => STRINGSLICE
  end.

(** The accessors; on a value of another kind they give the zero value
    of their result type. *)
Definition AsBool (v : Value) : bool :=
  match v with BoolValue b => b | _ => false end.
Definition AsInt64 (v : Value) : Z :=
  match v with Int64Value n => n | _ => 0 end.
Definition AsFloat64 (v : Value) : Z :=
  match v with Float64Value f => f | _ => 0 end.
Definition AsString (v : Value) : string :=
  match v with StringValue s => s | _ => "" end.
Definition AsBoolSlice (v : Value) : list bool :=
  match v with BoolSliceValue l => l | _ => [] end.
Definition AsInt64Slice (v : Value) : list Z :=
  match v with Int64SliceValue l => l | _ => [] end.
Definition AsFloat64Slice (v : Value) : list Z :=
  match v with Float64SliceValue l => l | _ => [] end.
Definition AsStringSlice (v : Value) : list string :=
  match v with StringSliceValue l => l | _ => [] end.

Record KeyValue : Type := mkKeyValue { Key : string; Value_ : Value }.

End attribute.

(** ** Package [go.opentelemetry.io/otel/codes] *)

Module codes.

Inductive Code : Type := Unset | Error | Ok.

Definition eqb (a b : Code) : bool :=
  match a, b with
  | Unset, Unset | Error, Error | Ok, Ok => true
  | _, _ => false
  end.

End codes.

(** ** Package [time] *)

Module time.

(** A [time.Time] holds a wall clock reading, an optional monotonic
    clock reading and a location.  [wall] is the wall clock reading in
    nanoseconds (seconds and nanoseconds of the struct taken together),
    [mono] the monotonic reading in nanoseconds when the time carries one
    (a time taken by [time.Now] does, a time built from a date or passed
    through [Round(0)], [UTC] and the like does not), and [loc] stands for
    the location pointer. *)
Record Time : Type := mkTime { wall : Z; mono : option Z; loc : Z }.

Definition hasMonotonic (t : Time) : bool :=
  match mono t with Some _ => true | None => false end.

Definition option_eqb (a b : option Z) : bool :=
  match a, b with
  | Some x, Some y => x =? y
  | None, None => true
  | _, _ => false
  end.

(** Go's [==] on two [Time] values compares the whole struct. *)
Definition eqb (t u : Time) : bool :=
  (wall t =? wall u) && option_eqb (mono t) (mono u) && (loc t =? loc u).

(** [t.Before(u)]: by the monotonic readings when both times carry one,
    by the wall clock readings otherwise. *)
Definition Before (t u : Time) : bool :=
  match mono t, mono u with
  | Some mt, Some mu => mt <? mu
  | _, _ => wall t <? wall u
  end.

(** [time.Duration]: nanoseconds in an [int64]. *)
Definition Duration : Type := Z.
Definition minDuration : Duration := - 2 ^ 63.
Definition maxDuration : Duration := 2 ^ 63 - 1.

Definition Nanosecond : Duration := 1.
Definition Microsecond : Duration := 1000 * Nanosecond.
Definition Millisecond : Duration := 1000 * Microsecond.
Definition Second : Duration := 1000 * Millisecond.

(** The least or the greatest duration in place of a difference that
    does not fit. *)
Definition saturate (d : Z) : Duration :=
  if d <? minDuration then minDuration
  else if maxDuration <? d then maxDuration
  else d.

(** [t.Sub(u)]: the difference of the monotonic readings when both
    times carry one, of the wall clock readings otherwise, saturated. *)
Definition Sub (t u : Time) : Duration :=
  match mono t, mono u with
  | Some mt, Some mu => saturate (mt - mu)
  | _, _ => saturate (wall t - wall u)
  end.

(** *** [Duration.String]

    The text is written from its end towards its start, as the library
    writes it into its buffer: [buf] is the text written so far. *)
Definition digit (v : Z) : ascii := ascii_of_nat (48 + Z.to_nat v).

(** [fmtInt]: the decimal digits of [v] in front of [buf]. *)
Definition fmtInt (buf : string) (v : Z) : string :=
  String.append (NilZero.string_of_int (Z.to_int v)) buf.

(** [fmtFrac]: the fraction of [v / 10^prec] in front of [buf], without
    trailing zeros and without the point when the fraction is zero; also
    gives [v / 10^prec]. *)
Fixpoint fmtFracLoop (prec : nat) (v : Z) (print : bool) (buf : string)
    : string * Z * bool :=
  match prec with
  | O => (buf, v, print)
  | S prec' =>
      let digit_ := v mod 10 in
      let print := print || negb (digit_ =? 0) in
      let buf := if print then String (digit digit_) buf else buf in
      fmtFracLoop prec' (v / 10) print buf
  end.

Definition fmtFrac (buf : string) (v : Z) (prec : nat) : string * Z :=
  let '(buf, v, print) := fmtFracLoop prec v false buf in
  (if print then String "." buf else buf, v).

(** [d.String()]: hours, minutes and seconds as in [1h2m3.5s], a smaller
    unit for a duration under one second, [0s] for zero. *)
Definition Duration_String (d : Duration) : string :=
  let u := Z.abs d in
  let neg := d <? 0 in
  let buf :=
    if u <? Second then
      if u =? 0 then "0s"
      else
        let '(prec, buf) :=
          if u <? Microsecond then (0%nat, "ns")
          else if u <? Millisecond
               then (3%nat, String "194" (String "181" "s"))
               else (6%nat, "ms") in
        let (buf, u) := fmtFrac buf u prec in
        fmtInt buf u
    else
      let buf := "s" in
      let (buf, u) := fmtFrac buf u 9 in
      let buf := fmtInt buf (u mod 60) in
      let u := u / 60 in
      if 0 <? u then
        let buf := String "m" buf in
        let buf := fmtInt buf (u mod 60) in
        let u := u / 60 in
        if 0 <? u then
          let buf := String "h" buf in
          fmtInt buf u
        else buf
      else buf in
  if neg then String "-" buf else buf.

End time.

(** ** Package [context] *)

Module context.

(** What the exporter can observe of a context: whether its [Done]
    channel is closed, and then the reason [Err] gives. *)
Inductive Context : Type :=
| Live
| Finished (reason : Err).

Definition Done (ctx : Context) : bool :=
  match ctx with Live => false | Finished _ => true end.

Definition Err (ctx : Context) : error :=
  match ctx with Live => None | Finished e => Some e end.

Definition Background : Context := Live.

End context.

(** ** Package [golang.org/x/exp/slog] *)

Module slog.

Definition Level : Type := Z.
Definition LevelInfo : Level := 0.
Definition LevelError : Level := 8.

Inductive Value : Type :=
| BoolValue (v : bool)
| Int64Value (v : Z)
| Float64Value (bits : Z)
| StringValue (v : string).

Record Attr : Type := mkAttr { Key : string; Value_ : Value }.

Definition Bool (key : string) (v : bool) : Attr := mkAttr key (BoolValue v).
Definition Int64 (key : string) (v : Z) : Attr := mkAttr key (Int64Value v).
Definition Float64 (key : string) (v : Z) : Attr :=
  mkAttr key (Float64Value v).
Definition String (key : string) (v : string) : Attr :=
  mkAttr key (StringValue v).

(** A record; [Attrs] is the sequence of attributes the record iterates
    over, in the order in which they were added. *)
Record Record : Type := mkRecord {
  Time : time.Time;
  Message : string;
  Level_ : Level;
  PC : Z;
  Attrs : list Attr
}.

Definition NewRecord (t : time.Time) (level : Level) (msg : string)
    (pc : Z) : Record :=
  mkRecord t msg level pc [].

Definition AddAttrs (r : Record) (attrs : list Attr) : Record :=
  mkRecord (Time r) (Message r) (Level_ r) (PC r) (Attrs r ++ attrs).

End slog.

(** ** What the exporter takes from its environment

    The text of a floating point number, which the exporter passes on
    unchanged, and the handler of the default logger. *)

Class Env : Type := {
  (** [%v] of a [float64], given by its bits. *)
  FormatFloat : Z -> string;
  (** [slog.Default().Handler()]: its state and its [Handle] method. *)
  HandlerState : Type;
  Handle : context.Context -> slog.Record -> HandlerState ->
           HandlerState * error
}.

(** ** Package [fmt] *)

Module fmt.

Definition FormatBool (b : bool) : string :=
  if b then "true" else "false".

Definition FormatInt (n : Z) : string :=
  NilZero.string_of_int (Z.to_int n).

(** The loop that prints a slice under [%v] and [%+v]: an opening
    bracket, the elements with a space before each one but the first, a
    closing bracket.  [i] is the index of the next element and [buf] the
    text written so far. *)
Fixpoint printElems {A : Type} (printValue : A -> string) (i : nat)
    (f : list A) (buf : string) : string :=
  match f with
  | [] => buf
  | x :: rest =>
      let buf := if (0 <? i)%nat then String.append buf " " else buf in
      let buf := String.append buf (printValue x) in
      printElems printValue (S i) rest buf
  end.

Definition printSlice {A : Type} (printValue : A -> string)
    (f : list A) : string :=
  String.append (printElems printValue 0%nat f "[") "]".

(** [fmt.Sprintf("%+v", xs)] at the four slice types the exporter
    prints. *)
Definition Sprintf_bools (xs : list bool) : string :=
  printSlice FormatBool xs.
Definition Sprintf_int64s (xs : list Z) : string :=
  printSlice FormatInt xs.
Definition Sprintf_float64s `{Env} (xs : list Z) : string :=
  printSlice FormatFloat xs.
Definition Sprintf_strings (xs : list string) : string :=
  printSlice (fun s => s) xs.

End fmt.

(** ** Package [golang.org/x/exp/slices] *)

Module slices.

Section Sort.
Context {E : Type} (cmp : E -> E -> Z).

(** One round of the insertion sort: [x] is the element at index [i],
    [sorted] holds the elements before it from index [i-1] down, and
    [x] moves down past each element [y] with [cmp x y < 0]. *)
Fixpoint insertionStep (x : E) (sorted : list E) : list E :=
  match sorted with
  | [] => [x]
  | y :: below =>
      if cmp x y <? 0 then y :: insertionStep x below
      else x :: y :: below
  end.

(** [slices.SortStableFunc].  The library sorts blocks of twenty
    elements of the slice by insertion and merges them with a stable
    merge; both move an element in front of another only when [cmp] of
    the two is negative.  The model runs the insertion over the whole
    slice.  That is the library's algorithm itself on a slice of at most
    twenty elements, which is one block; on a longer slice it gives the
    library's result whenever [cmp] orders the elements of the slice by
    a key, since a stable sort has one result then. *)
Definition SortStableFunc (x : list E) : list E :=
  rev (fold_left (fun sorted e => insertionStep e sorted) x []).
End Sort.

End slices.

(** ** Package [go.opentelemetry.io/otel/sdk/trace] *)

Module trace.

Record Status : Type := mkStatus { Code : codes.Code; Description : string }.

Record Event : Type := mkEvent {
  Event_Name : string;
  Event_Attributes : list attribute.KeyValue;
  Event_Time : time.Time
}.

(** The methods of [ReadOnlySpan] that the exporter calls. *)
Record ReadOnlySpan : Type := mkSpan {
  Name : string;
  StartTime : time.Time;
  EndTime : time.Time;
  Status_ : Status;
  Attributes : list attribute.KeyValue;
  Events : list Event
}.

End trace.


(** ** Package [slogtrace] *)

Module slogtrace.

(** [Exporter]; the mutex [stoppedMu] has no state of its own here. *)
Record Exporter : Type := mkExporter { stopped : bool }.


(** The logging backend: the state of the default handler, and the calls
    of [Handle] made so far with their results, oldest first. *)
Record Backend `{Env} : Type := mkBackend {
  handler : HandlerState;
  calls : list (slog.Record * error)
}.

Arguments mkBackend {_} handler calls.

Section WithEnv.
Context `{Env}.

(** The body of the loop of [attributesToAttrs]. *)
Definition appendAttr (attrs : list slog.Attr) (attr : attribute.KeyValue)
    : list slog.Attr :=
  let key := attribute.Key attr in
  let v := attribute.Value_ attr in
  match attribute.Value_Type v with
  | attribute.BOOL =>
      attrs ++ [slog.Bool key (attribute.AsBool v)]
  | attribute.INT64 =>
      attrs ++ [slog.Int64 key (attribute.AsInt64 v)]
  | attribute.FLOAT64 =>
      attrs ++ [slog.Float64 key (attribute.AsFloat64 v)]
  | attribute.STRING =>
      attrs ++ [slog.String key (attribute.AsString v)]
  | attribute.BOOLSLICE =>
      attrs ++ [slog.String key
                  (fmt.Sprintf_bools (attribute.AsBoolSlice v))]
  | attribute.INT64SLICE =>
      attrs ++ [slog.String key
                  (fmt.Sprintf_int64s (attribute.AsInt64Slice v))]
  | attribute.FLOAT64SLICE =>
      attrs ++ [slog.String key
                  (fmt.Sprintf_float64s (attribute.AsFloat64Slice v))]
  | attribute.STRINGSLICE =>
      attrs ++ [slog.String key
                  (fmt.Sprintf_strings (attribute.AsStringSlice v))]
  | attribute.INVALID => attrs
  end.

Definition attributesToAttrs (attributes : list attribute.KeyValue)
    : list slog.Attr :=
  fold_left appendAttr attributes [].

(** The level of the records of a span. *)
Definition spanLevel (span : trace.ReadOnlySpan) : slog.Level :=
  if codes.eqb (trace.Code (trace.Status_ span)) codes.Error
  then slog.LevelError
  else slog.LevelInfo.

(** The record [ExportSpans] builds for one event of a span whose level is
    [level]. *)
Definition eventRecord (level : slog.Level) (event : trace.Event)
    : slog.Record :=
  let eventRecord :=
    slog.NewRecord (trace.Event_Time event) level
                   (trace.Event_Name event) 0 in
  slog.AddAttrs eventRecord
                (attributesToAttrs (trace.Event_Attributes event)).

(** The body of the inner loop of [ExportSpans], over the events. *)
Definition appendEvent (level : slog.Level) (records : list slog.Record)
    (event : trace.Event) : list slog.Record :=
  records ++ [eventRecord level event].

(** The record [ExportSpans] builds for the span itself. *)
Definition spanRecord (span : trace.ReadOnlySpan) : slog.Record :=
  let level := spanLevel span in
  let record :=
    slog.NewRecord (trace.StartTime span) level (trace.Name span) 0 in
  let duration := time.Sub (trace.EndTime span) (trace.StartTime span) in
  let attrs := [] in
  let attrs := attrs ++ [slog.String "duration" (time.Duration_String duration)] in
  let attrs := attrs ++ attributesToAttrs (trace.Attributes span) in
  slog.AddAttrs record attrs.

(** The body of the outer loop of [ExportSpans], over the spans. *)
Definition appendSpan (records : list slog.Record)
    (span : trace.ReadOnlySpan) : list slog.Record :=
  let level := spanLevel span in
  let records := records ++ [spanRecord span] in
  fold_left (appendEvent level) (trace.Events span) records.

Definition buildRecords (spans : list trace.ReadOnlySpan)
    : list slog.Record :=
  fold_left appendSpan spans [].

(** The comparison handed to [slices.SortStableFunc]. *)
Definition compareRecords (a b : slog.Record) : Z :=
  if time.eqb (slog.Time a) (slog.Time b) then 0
  else if time.Before (slog.Time a) (slog.Time b) then -1
  else 1.

(** One call of [slog.Default().Handler().Handle(ctx, record)]. *)
Definition callHandle (ctx : context.Context) (record : slog.Record)
    (b : Backend) : error * Backend :=
  let (h, err) := Handle ctx record (handler b) in
  (err, mkBackend h (calls b ++ [(record, err)])).

(** The delivery loop of [ExportSpans]. *)
Fixpoint deliver (ctx : context.Context) (records : list slog.Record)
    (b : Backend) : error * Backend :=
  match records with
  | [] => (None, b)
  | record :: rest =>
      match callHandle ctx record b with
      | (Some err, b') => (Some err, b')
      | (None, b') => deliver ctx rest b'
      end
  end.

Definition ExportSpans (e : Exporter) (ctx : context.Context)
    (spans : list trace.ReadOnlySpan) (b : Backend) : error * Backend :=
  if stopped e then (None, b)
  else if (List.length spans =? 0)%nat then (None, b)
  else
    let records := buildRecords spans in
    let records := slices.SortStableFunc compareRecords records in
    deliver ctx records b.

(** [Shutdown] gives its result and the exporter after the call. *)
Definition Shutdown (e : Exporter) (ctx : context.Context)
    : error * Exporter :=
  let e := mkExporter true in
  if context.Done ctx then (context.Err ctx, e)
  else (None, e).

(** *** Sequences of calls on one exporter *)

Inductive Call : Type :=
| CallExportSpans (ctx : context.Context) (spans : list trace.ReadOnlySpan)
| CallShutdown (ctx : context.Context).

Record System : Type := mkSystem { exporter : Exporter; backend : Backend }.

Definition step (c : Call) (s : System) : error * System :=
  match c with
  | CallExportSpans ctx spans =>
      let (err, b) := ExportSpans (exporter s) ctx spans (backend s) in
      (err, mkSystem (exporter s) b)
  | CallShutdown ctx =>
      let (err, e) := Shutdown (exporter s) ctx in
      (err, mkSystem e (backend s))
  end.

Fixpoint run (cs : list Call) (s : System) : list error * System :=
  match cs with
  | [] => ([], s)
  | c :: rest =>
      let (err, s1) := step c s in
      let (errs, s2) := run rest s1 in
      (err :: errs, s2)
  end.

(** The records handed to the handler, and those it accepted. *)
Definition attempted (b : Backend) : list slog.Record :=
  map fst (calls b).

Definition isNil (err : error) : bool :=
  match err with None => true | Some _ => false end.

Definition delivered (b : Backend) : list slog.Record :=
  map fst (filter (fun c => isNil (snd c)) (calls b)).

(** [accepts ctx h rs h']: from state [h] the handler takes the records
    [rs] one after the other without an error and ends in state [h']. *)
Inductive accepts (ctx : context.Context)
    : HandlerState -> list slog.Record -> HandlerState -> Prop :=
| accepts_nil : forall h, accepts ctx h [] h
| accepts_cons : forall h r h1 rs h2,
    Handle ctx r h = (h1, None) ->
    accepts ctx h1 rs h2 ->
    accepts ctx h (r :: rs) h2.

(** The kinds [attributesToAttrs] has a case for. *)
Definition recognised (attr : attribute.KeyValue) : bool :=
  match attribute.Value_Type (attribute.Value_ attr) with
  | attribute.INVALID => false
  | _ => true
  end.

(** *** Vocabulary of the statements *)

(** What one attribute contributes. *)
Definition convert (attr : attribute.KeyValue) : list slog.Attr :=
  appendAttr [] attr.

(** The records of one span in the order of the build traversal: the
    span's record, then its events' records in the order of the events. *)
Definition recordsOf (span : trace.ReadOnlySpan) : list slog.Record :=
  spanRecord span :: map (eventRecord (spanLevel span)) (trace.Events span).

(** What a call returns once the exporter is stopped. *)
Definition resultWhenStopped (c : Call) (err : error) : Prop :=
  match c with
  | CallExportSpans _ _ => err = None
  | CallShutdown ctx => err = context.Err ctx
  end.

End WithEnv.

End slogtrace.

(** ** A concrete environment, for running the model

    A float is printed as the decimal text of the integer that carries
    it.  The handler accepts records while its budget
    lasts: its state is the number of records it will still take. *)

#[local] Instance demoEnv : Env := {|
  FormatFloat := fmt.FormatInt;
  HandlerState := nat;
  Handle := fun _ _ budget =>
    match budget with
    | O => (O, Some (HandlerError "write failed"))
    | S n => (n, None)
    end
|}.

(** A second environment, whose handler accepts every record; its state
    is the number of records taken. *)
Definition acceptingEnv : Env := {|
  FormatFloat := fmt.FormatInt;
  HandlerState := nat;
  Handle := fun _ _ taken => (S taken, None)
|}.

(** ** Auxiliary definitions *)

(** The elements after the first: each one written after a space. *)
Fixpoint spaced (texts : list string) : string :=
  match texts with
  | [] => ""
  | t :: rest => String.append " " (String.append t (spaced rest))
  end.

(** Descending order of a key, the elements of one key, and the rounds of
    the insertion sort from a given state. *)
Definition descendingBy {E : Type} (key : E -> Z) : list E -> Prop :=
  StronglySorted (fun a b => key b <= key a).

Definition hasKey {E : Type} (key : E -> Z) (t : Z) (e : E) : bool :=
  key e =? t.

Definition insertAll_ {E : Type} (cmp : E -> E -> Z) (l acc : list E)
    : list E :=
  fold_left (fun sorted e => slices.insertionStep cmp e sorted) l acc.

(** The clock reading of a time that [Before] compares with the reading
    of another time of the same sort: the monotonic reading when the time
    carries one, the wall clock reading when it does not. *)
Definition clockReading (t : time.Time) : Z :=
  match time.mono t with
  | Some m => m
  | None => time.wall t
  end.

Definition recordReading (r : slog.Record) : Z :=
  clockReading (slog.Time r).

(** Times that all carry a monotonic reading, or of which none does. *)
Definition oneClock (ts : list time.Time) : bool :=
  forallb time.hasMonotonic ts ||
  forallb (fun t => negb (time.hasMonotonic t)) ts.

(** The timestamps of a batch in the order of the build traversal: the
    start time of each span, followed by the times of its events. *)
Definition batchTimes (spans : list trace.ReadOnlySpan) : list time.Time :=
  flat_map (fun span =>
              trace.StartTime span ::
              map trace.Event_Time (trace.Events span))
           spans.

(** The comparison of two records by their readings alone. *)
Definition compareReadings (a b : slog.Record) : Z :=
  if recordReading a <? recordReading b then -1 else 1.

(** ** Concrete inputs *)

(** A span with a string attribute, an attribute of the zero kind, and an
    event that has an attribute of its own under the key [duration]. *)
Definition demoEvent : trace.Event :=
  trace.mkEvent "test event"
    [attribute.mkKeyValue "duration" (attribute.StringValue "x")]
    (time.mkTime 20 None 0).

Definition demoSpan : trace.ReadOnlySpan :=
  trace.mkSpan "test" (time.mkTime 10 None 0) (time.mkTime 30 None 0)
    (trace.mkStatus codes.Unset "")
    [attribute.mkKeyValue "string" (attribute.StringValue "hello world");
     attribute.mkKeyValue "none" attribute.ZeroValue;
     attribute.mkKeyValue "ints" (attribute.Int64SliceValue [1; 1; 2; 3; 5; 8; 13])]
    [demoEvent].

(** A span with the error status that starts when [demoSpan] starts, in
    another location. *)
Definition demoErrorSpan : trace.ReadOnlySpan :=
  trace.mkSpan "test error" (time.mkTime 10 None 1) (time.mkTime 15 None 1)
    (trace.mkStatus codes.Error "test error") [] [].

Definition demoBatch : list trace.ReadOnlySpan := [demoSpan; demoErrorSpan].

Definition activeExporter : slogtrace.Exporter := slogtrace.mkExporter false.

(** A backend whose handler takes [budget] records and then fails. *)
Definition demoBackend (budget : nat) : slogtrace.Backend :=
  slogtrace.mkBackend (budget : @HandlerState demoEnv) [].

(** ** Further vocabulary *)

(** The four scalar kinds. *)
Definition scalar (attr : attribute.KeyValue) : bool :=
  match attribute.Value_Type (attribute.Value_ attr) with
  | attribute.BOOL | attribute.INT64 | attribute.FLOAT64
  | attribute.STRING => true
  | _ => false
  end.

(** The number of events of a batch. *)
Definition eventCount (spans : list trace.ReadOnlySpan) : nat :=
  list_sum (map (fun span => List.length (trace.Events span)) spans).

(** A call of [Handle] that returned [nil]. *)
Definition accepted (r : slog.Record) : slog.Record * error := (r, None).

(** ** The helper [parseLogLines] of the tests

    [json.Unmarshal] is a parameter: it gives a row or an error. *)

Module slogtrace_test.

Definition newline : ascii := "010"%char.

(** [bytes.Split(s, sep)] for a separator of one byte: the pieces of [s]
    between the occurrences of [sep]; [n] occurrences give [n+1] pieces. *)
Fixpoint Split (s : string) (sep : ascii) : list string :=
  match s with
  | EmptyString => [EmptyString]
  | String c rest =>
      if Ascii.eqb c sep then EmptyString :: Split rest sep
      else
        match Split rest sep with
        | piece :: pieces => String c piece :: pieces
        | [] => [String c EmptyString]
        end
  end.

(** The slice expression [x[:len(x)-1]]; it panics on an empty slice,
    which is [None] here. *)
Definition dropLast {A : Type} (x : list A) : option (list A) :=
  match x with
  | [] => None
  | _ :: _ => Some (removelast x)
  end.

Section ParseLogLines.
Context {Row JsonError : Type} (Unmarshal : string -> Row + JsonError).

(** The loop of [parseLogLines]; [data] is the slice built so far. *)
Fixpoint parseLines (jsonlines : list string) (data : list Row)
    : list Row + JsonError :=
  match jsonlines with
  | [] => inl data
  | line :: rest =>
      match Unmarshal line with
      | inr err => inr err
      | inl row => parseLines rest (data ++ [row])
      end
  end.

(** [parseLogLines]; [None] is a panic. *)
Definition parseLogLines (buf : string) : option (list Row + JsonError) :=
  match dropLast (Split buf newline) with
  | None => None
  | Some jsonlines => Some (parseLines jsonlines [])
  end.

End ParseLogLines.

(** The number of occurrences of a byte, and a text of complete lines. *)
Fixpoint countByte (c : ascii) (s : string) : nat :=
  match s with
  | EmptyString => 0%nat
  | String d rest =>
      ((if Ascii.eqb d c then 1 else 0) + countByte c rest)%nat
  end.

Fixpoint joinLines (lines : list string) : string :=
  match lines with
  | [] => EmptyString
  | line :: rest =>
      String.append line (String newline (joinLines rest))
  end.

(** A parser for running the model: a line is its own row, and the empty
    line is an error. *)
Definition demoUnmarshal (line : string) : string + string :=
  match line with
  | EmptyString => inr "unexpected end of JSON input"
  | _ => inl line
  end.

End slogtrace_test.

(** ** Further concrete inputs *)

(** A batch whose only span has no event. *)
Definition demoLateSpan : trace.ReadOnlySpan :=
  trace.mkSpan "late" (time.mkTime 5 None 0) (time.mkTime 6 None 0)
    (trace.mkStatus codes.Ok "") [] [].

(** Three spans of which the first and the third carry monotonic
    readings and the second does not; between the first and the third the
    wall clock was set back. *)
Definition spanA : trace.ReadOnlySpan :=
  trace.mkSpan "A" (time.mkTime 1000 (Some 100) 0)
    (time.mkTime 1010 (Some 110) 0) (trace.mkStatus codes.Unset "") [] [].

Definition spanB : trace.ReadOnlySpan :=
  trace.mkSpan "B" (time.mkTime 950 None 0) (time.mkTime 960 None 0)
    (trace.mkStatus codes.Unset "") [] [].

Definition spanC : trace.ReadOnlySpan :=
  trace.mkSpan "C" (time.mkTime 900 (Some 200) 0)
    (time.mkTime 910 (Some 210) 0) (trace.mkStatus codes.Unset "") [] [].

Definition mixedClockBatch : list trace.ReadOnlySpan :=
  [spanA; spanB; spanC].



(** A span of two seconds with an attribute and an event, and a span of
    one and a half milliseconds with the error status. *)
Definition slowSpan : trace.ReadOnlySpan :=
  trace.mkSpan "slow" (time.mkTime 0 (Some 0) 0)
    (time.mkTime 2000000000 (Some 2000000000) 0)
    (trace.mkStatus codes.Ok "")
    [attribute.mkKeyValue "k" (attribute.StringValue "v")]
    [trace.mkEvent "tick"
       [attribute.mkKeyValue "n" (attribute.Int64Value 1)]
       (time.mkTime 1000000000 (Some 1000000000) 0)].

Definition quickSpan : trace.ReadOnlySpan :=
  trace.mkSpan "quick" (time.mkTime 500 (Some 500) 0)
    (time.mkTime 1500500 (Some 1500500) 0)
    (trace.mkStatus codes.Error "failed") [] [].

Definition durationBatch : list trace.ReadOnlySpan := [slowSpan; quickSpan].

Definition acceptingBackend : @slogtrace.Backend acceptingEnv :=
  @slogtrace.mkBackend acceptingEnv 0%nat [].

(** * Properties *)

(** ** Text *)

Lemma append_assoc (a b c : string) :
  String.append (String.append a b) c = String.append a (String.append b c).
Proof.
  induction a as [|ch a IH]; simpl; [reflexivity | now rewrite IH].
Qed.

Lemma append_nil_r (a : string) : String.append a "" = a.
Proof.
  induction a as [|ch a IH]; simpl; [reflexivity | now rewrite IH].
Qed.

Lemma concat_spaced (t : string) (rest : list string) :
  String.concat " " (t :: rest) = String.append t (spaced rest).
Proof.
  revert t; induction rest as [|u rest IH]; intro t.
  - simpl. now rewrite append_nil_r.
  - change (String.concat " " (t :: u :: rest))
      with (String.append t (String.append " " (String.concat " " (u :: rest)))).
    now rewrite IH.
Qed.

Lemma printElems_later {A : Type} (p : A -> string) (f : list A) :
  forall (i : nat) (buf : string),
    fmt.printElems p (S i) f buf = String.append buf (spaced (map p f)).
Proof.
  induction f as [|x f IH]; intros i buf; simpl.
  - now rewrite append_nil_r.
  - rewrite IH. now rewrite !append_assoc.
Qed.

(** The printing loop writes the bracketed, space-separated list. *)
Lemma printSlice_concat {A : Type} (p : A -> string) (f : list A) :
  fmt.printSlice p f =
  String.append "[" (String.append (String.concat " " (map p f)) "]").
Proof.
  unfold fmt.printSlice. destruct f as [|x f].
  - reflexivity.
  - cbn [fmt.printElems Nat.ltb Nat.leb map].
    rewrite printElems_later, concat_spaced.
    now rewrite !append_assoc.
Qed.

(** ** The attribute converter *)

Section Converter.
Context `{Env}.

Import slogtrace.

Lemma appendAttr_convert (attrs : list slog.Attr) (attr : attribute.KeyValue) :
  appendAttr attrs attr = attrs ++ convert attr.
Proof.
  unfold convert, appendAttr.
  destruct (attribute.Value_Type (attribute.Value_ attr));
    simpl; now rewrite ?app_nil_r.
Qed.

Lemma fold_appendAttr (l : list attribute.KeyValue) :
  forall acc, fold_left appendAttr l acc = acc ++ flat_map convert l.
Proof.
  induction l as [|a l IH]; intro acc; simpl.
  - now rewrite app_nil_r.
  - rewrite IH, appendAttr_convert. now rewrite app_assoc.
Qed.

Lemma attributesToAttrs_flat_map (l : list attribute.KeyValue) :
  attributesToAttrs l = flat_map convert l.
Proof. unfold attributesToAttrs. now rewrite fold_appendAttr. Qed.

Lemma attributesToAttrs_app (l1 l2 : list attribute.KeyValue) :
  attributesToAttrs (l1 ++ l2) = attributesToAttrs l1 ++ attributesToAttrs l2.
Proof. rewrite !attributesToAttrs_flat_map. apply flat_map_app. Qed.

Lemma attributesToAttrs_cons (a : attribute.KeyValue)
    (l : list attribute.KeyValue) :
  attributesToAttrs (a :: l) = convert a ++ attributesToAttrs l.
Proof. now rewrite !attributesToAttrs_flat_map. Qed.

Lemma convert_recognised (a : attribute.KeyValue) :
  recognised a = true ->
  exists v, convert a = [slog.mkAttr (attribute.Key a) v].
Proof.
  unfold recognised, convert, appendAttr.
  destruct (attribute.Value_Type (attribute.Value_ a)); intro Hr;
    try discriminate; simpl; eexists; reflexivity.
Qed.

Lemma convert_unrecognised (a : attribute.KeyValue) :
  recognised a = false -> convert a = [].
Proof.
  unfold recognised, convert, appendAttr.
  destruct (attribute.Value_Type (attribute.Value_ a)); intro Hr;
    try discriminate; reflexivity.
Qed.

Lemma convert_length (a : attribute.KeyValue) :
  (List.length (convert a) <= 1)%nat.
Proof.
  destruct (recognised a) eqn:Hr.
  - destruct (convert_recognised a Hr) as [v ->]. simpl. lia.
  - rewrite (convert_unrecognised a Hr). simpl. lia.
Qed.

Lemma convert_keys (a : attribute.KeyValue) :
  map slog.Key (convert a) =
  if recognised a then [attribute.Key a] else [].
Proof.
  destruct (recognised a) eqn:Hr.
  - destruct (convert_recognised a Hr) as [v ->]. reflexivity.
  - now rewrite (convert_unrecognised a Hr).
Qed.

Lemma attributesToAttrs_keys (l : list attribute.KeyValue) :
  map slog.Key (attributesToAttrs l) =
  map attribute.Key (filter recognised l).
Proof.
  rewrite attributesToAttrs_flat_map.
  induction l as [|a l IH]; simpl; [reflexivity|].
  rewrite map_app, IH, convert_keys. destruct (recognised a); reflexivity.
Qed.

(** C5: a sequence-valued attribute of any of the four element kinds
    becomes a string-valued pair under the same key, whose text is an
    opening bracket, the elements' texts joined by single spaces, and a
    closing bracket, with nothing after the last element: [true] and
    [false] for booleans, the decimal digits for integers, the string
    itself for strings, the environment's text for floats.  So the
    sequences of the repository's test give [[true false]],
    [[1 1 2 3 5 8 13]] and [[hello world]], and an empty sequence [[]]. *)
Theorem slice_attribute_rendering (key : string) :
  (forall xs : list bool,
     attributesToAttrs [attribute.mkKeyValue key (attribute.BoolSliceValue xs)] =
     [slog.String key
        (String.append "["
           (String.append
              (String.concat " "
                 (map (fun b : bool => if b then "true" else "false") xs))
              "]"))])
  /\
  (forall xs : list Z,
     attributesToAttrs [attribute.mkKeyValue key (attribute.Int64SliceValue xs)] =
     [slog.String key
        (String.append "["
           (String.append
              (String.concat " "
                 (map (fun n => NilZero.string_of_int (Z.to_int n)) xs))
              "]"))])
  /\
  (forall xs : list Z,
     attributesToAttrs
       [attribute.mkKeyValue key (attribute.Float64SliceValue xs)] =
     [slog.String key
        (String.append "["
           (String.append (String.concat " " (map FormatFloat xs)) "]"))])
  /\
  (forall xs : list string,
     attributesToAttrs
       [attribute.mkKeyValue key (attribute.StringSliceValue xs)] =
     [slog.String key
        (String.append "["
           (String.append (String.concat " " xs) "]"))])
  /\ attributesToAttrs
       [attribute.mkKeyValue key (attribute.BoolSliceValue [true; false])] =
     [slog.String key "[true false]"]
  /\ attributesToAttrs
       [attribute.mkKeyValue key
          (attribute.Int64SliceValue [1; 1; 2; 3; 5; 8; 13])] =
     [slog.String key "[1 1 2 3 5 8 13]"]
  /\ attributesToAttrs
       [attribute.mkKeyValue key (attribute.Int64SliceValue [-42; 0])] =
     [slog.String key "[-42 0]"]
  /\ attributesToAttrs
       [attribute.mkKeyValue key
          (attribute.StringSliceValue ["hello"; "world"])] =
     [slog.String key "[hello world]"]
  /\ attributesToAttrs
       [attribute.mkKeyValue key (attribute.Float64SliceValue [])] =
     [slog.String key "[]"].
Proof.
  split; [|split; [|split; [|split]]].
  - intro xs. cbn -[String.concat fmt.printSlice].
    unfold fmt.Sprintf_bools. now rewrite printSlice_concat.
  - intro xs. cbn -[String.concat fmt.printSlice].
    unfold fmt.Sprintf_int64s. now rewrite printSlice_concat.
  - intro xs. cbn -[String.concat fmt.printSlice].
    unfold fmt.Sprintf_float64s. now rewrite printSlice_concat.
  - intro xs. cbn -[String.concat fmt.printSlice].
    unfold fmt.Sprintf_strings. now rewrite printSlice_concat, map_id.
  - repeat split; reflexivity.
Qed.

(** C6: an attribute whose kind is none of the eight kinds the converter
    has a case for contributes no pair, and the attributes before and
    after it are converted as they are without it. *)
Theorem unknown_kind_skipped (pre post : list attribute.KeyValue)
    (attr : attribute.KeyValue) :
  ~ In (attribute.Value_Type (attribute.Value_ attr))
       [attribute.BOOL; attribute.INT64; attribute.FLOAT64; attribute.STRING;
        attribute.BOOLSLICE; attribute.INT64SLICE; attribute.FLOAT64SLICE;
        attribute.STRINGSLICE] ->
  attributesToAttrs [attr] = [] /\
  attributesToAttrs (pre ++ attr :: post) =
  attributesToAttrs pre ++ attributesToAttrs post.
Proof.
  intro Hkind.
  assert (Hr : recognised attr = false).
  { unfold recognised.
    destruct (attribute.Value_Type (attribute.Value_ attr));
      try reflexivity; exfalso; apply Hkind; simpl; tauto. }
  split.
  - rewrite attributesToAttrs_cons, (convert_unrecognised _ Hr). reflexivity.
  - rewrite attributesToAttrs_app, attributesToAttrs_cons.
    now rewrite (convert_unrecognised _ Hr).
Qed.

(** C10: the converter gives at most one pair per attribute, keeps the
    attributes it renders in the order in which it meets them, and keeps
    every one of them whatever its key: the keys of the output are the
    keys of the attributes of a recognised kind, in input order, repeated
    keys included. *)
Theorem converter_order_no_dedup (attributes l1 l2 l3 : list attribute.KeyValue)
    (a b : attribute.KeyValue) :
  (List.length (attributesToAttrs attributes) <= List.length attributes)%nat
  /\ attributesToAttrs attributes = flat_map convert attributes
  /\ (List.length (convert a) <= 1)%nat
  /\ map slog.Key (attributesToAttrs attributes) =
     map attribute.Key (filter recognised attributes)
  /\ attributesToAttrs (l1 ++ a :: l2 ++ b :: l3) =
     attributesToAttrs l1 ++ convert a ++ attributesToAttrs l2 ++
     convert b ++ attributesToAttrs l3.
Proof.
  split; [|split; [|split; [|split]]].
  - rewrite attributesToAttrs_flat_map.
    induction attributes as [|x l IH]; simpl; [lia|].
    rewrite length_app. pose proof (convert_length x). lia.
  - apply attributesToAttrs_flat_map.
  - apply convert_length.
  - apply attributesToAttrs_keys.
  - rewrite attributesToAttrs_app, attributesToAttrs_cons,
      attributesToAttrs_app, attributesToAttrs_cons.
    reflexivity.
Qed.

End Converter.

(** ** The stable sort *)

Lemma StronglySorted_app {A : Type} (R : A -> A -> Prop) (l1 l2 : list A) :
  StronglySorted R l1 -> StronglySorted R l2 ->
  (forall a b, In a l1 -> In b l2 -> R a b) ->
  StronglySorted R (l1 ++ l2).
Proof.
  induction l1 as [|x l1 IH]; intros H1 H2 Hc; simpl; [exact H2|].
  apply StronglySorted_inv in H1 as [H1 Hx].
  constructor.
  - apply IH; [exact H1 | exact H2 |].
    intros a b Ha Hb. apply Hc; [now right | exact Hb].
  - apply Forall_app. split; [exact Hx|].
    apply Forall_forall. intros b Hb. apply Hc; [now left | exact Hb].
Qed.

Lemma StronglySorted_rev {A : Type} (R : A -> A -> Prop) (l : list A) :
  StronglySorted (fun a b => R b a) l -> StronglySorted R (rev l).
Proof.
  induction l as [|x l IH]; intro Hs; simpl; [constructor|].
  apply StronglySorted_inv in Hs as [Hs Hx].
  apply StronglySorted_app.
  - now apply IH.
  - repeat constructor.
  - intros a b Ha [<-|[]]. apply in_rev in Ha.
    rewrite Forall_forall in Hx. now apply Hx.
Qed.

Lemma filter_rev {A : Type} (f : A -> bool) (l : list A) :
  filter f (rev l) = rev (filter f l).
Proof.
  induction l as [|x l IH]; simpl; [reflexivity|].
  rewrite filter_app, IH. simpl. destruct (f x); simpl.
  - reflexivity.
  - now rewrite app_nil_r.
Qed.

Section StableSort.
Context {E : Type} (cmp : E -> E -> Z) (key : E -> Z).
Hypothesis cmp_key : forall a b, cmp a b < 0 <-> key a < key b.

Local Abbreviation descending := (descendingBy key).
Local Abbreviation sameKey := (hasKey key).
Local Abbreviation insertAll := (insertAll_ cmp).

Lemma insertionStep_perm (x : E) (l : list E) :
  Permutation (x :: l) (slices.insertionStep cmp x l).
Proof.
  induction l as [|y l IH]; simpl; [reflexivity|].
  destruct (cmp x y <? 0); [|reflexivity].
  rewrite perm_swap. now apply perm_skip.
Qed.

Lemma insertionStep_descending (x : E) (l : list E) :
  descending l -> descending (slices.insertionStep cmp x l).
Proof.
  unfold descendingBy.
  induction l as [|y l IH]; intro Hs; simpl.
  - repeat constructor.
  - apply StronglySorted_inv in Hs as Hinv. destruct Hinv as [Hl Hy].
    destruct (cmp x y <? 0) eqn:Hc.
    + apply Z.ltb_lt, cmp_key in Hc.
      constructor; [now apply IH|].
      apply Forall_forall. intros z Hz.
      apply (Permutation_in _ (Permutation_sym (insertionStep_perm x l))) in Hz.
      destruct Hz as [<-|Hz]; [lia|].
      rewrite Forall_forall in Hy. now apply Hy.
    + apply Z.ltb_ge in Hc.
      assert (Hxy : key y <= key x).
      { destruct (Z.lt_ge_cases (key x) (key y)) as [Hlt|Hge]; [|exact Hge].
        apply cmp_key in Hlt. lia. }
      constructor; [exact Hs|].
      constructor; [exact Hxy|].
      apply Forall_forall. intros z Hz.
      rewrite Forall_forall in Hy. specialize (Hy z Hz). lia.
Qed.

(** An element only moves past elements of another key. *)
Lemma insertionStep_sameKey (t : Z) (x : E) (l : list E) :
  filter (sameKey t) (slices.insertionStep cmp x l) =
  filter (sameKey t) (x :: l).
Proof.
  unfold hasKey.
  induction l as [|y l IH]; [reflexivity|].
  cbn [slices.insertionStep].
  destruct (cmp x y <? 0) eqn:Hc; [|reflexivity].
  apply Z.ltb_lt, cmp_key in Hc.
  cbn [filter] in *. rewrite IH.
  destruct (key x =? t) eqn:Hx; [|reflexivity].
  apply Z.eqb_eq in Hx.
  assert (Hy : (key y =? t) = false) by (apply Z.eqb_neq; lia).
  now rewrite Hy.
Qed.

Lemma insertAll_perm (l : list E) :
  forall acc, Permutation (rev l ++ acc) (insertAll l acc).
Proof.
  unfold insertAll_.
  induction l as [|x l IH]; intro acc; simpl; [reflexivity|].
  rewrite <- IH, <- app_assoc. simpl.
  apply Permutation_app_head, insertionStep_perm.
Qed.

Lemma insertAll_descending (l : list E) :
  forall acc, descending acc -> descending (insertAll l acc).
Proof.
  unfold insertAll_.
  induction l as [|x l IH]; intros acc Hacc; simpl; [exact Hacc|].
  apply IH, insertionStep_descending, Hacc.
Qed.

Lemma insertAll_sameKey (t : Z) (l : list E) :
  forall acc,
    filter (sameKey t) (insertAll l acc) =
    rev (filter (sameKey t) l) ++ filter (sameKey t) acc.
Proof.
  unfold insertAll_.
  induction l as [|x l IH]; intro acc; simpl; [reflexivity|].
  rewrite IH, insertionStep_sameKey. simpl.
  destruct (sameKey t x); simpl; [|reflexivity].
  now rewrite <- app_assoc.
Qed.

(** The sort rearranges its input, *)
Lemma SortStableFunc_perm (l : list E) :
  Permutation l (slices.SortStableFunc cmp l).
Proof.
  unfold slices.SortStableFunc.
  rewrite <- Permutation_rev.
  pose proof (insertAll_perm l []) as Hp.
  unfold insertAll_ in Hp. rewrite app_nil_r in Hp.
  now rewrite <- Hp, <- Permutation_rev.
Qed.

(** puts it in ascending order of the key, *)
Lemma SortStableFunc_sorted (l : list E) :
  StronglySorted (fun a b => key a <= key b) (slices.SortStableFunc cmp l).
Proof.
  unfold slices.SortStableFunc.
  apply StronglySorted_rev.
  apply (insertAll_descending l []). constructor.
Qed.

(** and leaves the elements of one key in the order they had. *)
Lemma SortStableFunc_stable (t : Z) (l : list E) :
  filter (sameKey t) (slices.SortStableFunc cmp l) = filter (sameKey t) l.
Proof.
  unfold slices.SortStableFunc.
  rewrite filter_rev.
  pose proof (insertAll_sameKey t l []) as Hf. unfold insertAll_ in Hf.
  simpl in Hf. rewrite app_nil_r in Hf.
  now rewrite Hf, rev_involutive.
Qed.

End StableSort.

(** Two lists in ascending order of a key that hold, for every key, the
    same elements in the same order are the same list: the three
    properties above determine the result of the sort, whatever stable
    algorithm computes it. *)
Lemma sorted_stable_unique {E : Type} (key : E -> Z) (l1 : list E) :
  forall l2,
    StronglySorted (fun a b => key a <= key b) l1 ->
    StronglySorted (fun a b => key a <= key b) l2 ->
    (forall t, filter (hasKey key t) l1 = filter (hasKey key t) l2) ->
    l1 = l2.
Proof.
  assert (Hin : forall (l l' : list E) y,
             (forall t, filter (hasKey key t) l = filter (hasKey key t) l') ->
             In y l -> In y l').
  { intros l l' y Hf Hy.
    assert (Hy' : In y (filter (hasKey key (key y)) l)).
    { apply filter_In. split; [exact Hy|]. apply Z.eqb_refl. }
    rewrite Hf in Hy'. now apply filter_In in Hy'. }
  induction l1 as [|x l1 IH]; intros l2 H1 H2 Hf.
  - destruct l2 as [|y l2]; [reflexivity|].
    exfalso. apply (Hin (y :: l2) [] y); [now symmetry in Hf | now left].
  - destruct l2 as [|y l2].
    { exfalso. apply (Hin (x :: l1) [] x); [exact Hf | now left]. }
    apply StronglySorted_inv in H1 as [H1 Hx].
    apply StronglySorted_inv in H2 as [H2 Hy].
    rewrite Forall_forall in Hx, Hy.
    assert (Hk : key x = key y).
    { apply Z.le_antisymm.
      - destruct (Hin (y :: l2) (x :: l1) y) as [->|Hy1];
          [now symmetry in Hf | now left | lia | now apply Hx].
      - destruct (Hin (x :: l1) (y :: l2) x) as [->|Hx2];
          [exact Hf | now left | lia | now apply Hy]. }
    assert (Hxy : x = y).
    { specialize (Hf (key x)). cbn [filter] in Hf.
      assert (Hx1 : hasKey key (key x) x = true) by apply Z.eqb_refl.
      assert (Hy1 : hasKey key (key x) y = true)
        by (unfold hasKey; rewrite Hk; apply Z.eqb_refl).
      rewrite Hx1, Hy1 in Hf. now inversion Hf. }
    subst y. f_equal. apply IH; [exact H1 | exact H2 |].
    intro t. specialize (Hf t). cbn [filter] in Hf.
    destruct (hasKey key t x); [now inversion Hf | exact Hf].
Qed.

(** The sort only consults the comparison on the elements of the list. *)
Lemma insertionStep_ext {E : Type} (cmp cmp' : E -> E -> Z) (x : E)
    (l : list E) :
  (forall y, In y l -> (cmp x y <? 0) = (cmp' x y <? 0)) ->
  slices.insertionStep cmp x l = slices.insertionStep cmp' x l.
Proof.
  induction l as [|y l IH]; intro Hagree; [reflexivity|].
  cbn [slices.insertionStep].
  rewrite <- (Hagree y (or_introl eq_refl)).
  destruct (cmp x y <? 0); [|reflexivity].
  f_equal. apply IH. intros z Hz. apply Hagree. now right.
Qed.

Lemma insertAll_ext {E : Type} (cmp cmp' : E -> E -> Z) (l : list E) :
  forall acc,
    (forall a b, In a (l ++ acc) -> In b (l ++ acc) ->
                 (cmp a b <? 0) = (cmp' a b <? 0)) ->
    insertAll_ cmp l acc = insertAll_ cmp' l acc.
Proof.
  unfold insertAll_.
  induction l as [|x l IH]; intros acc Hagree; [reflexivity|].
  cbn [fold_left].
  rewrite (insertionStep_ext cmp cmp' x acc).
  - apply IH. intros a b Ha Hb.
    assert (Hin : forall c, In c (l ++ slices.insertionStep cmp' x acc) ->
                            In c ((x :: l) ++ acc)).
    { intros c Hc. apply in_app_or in Hc as [Hc|Hc].
      - simpl. right. apply in_or_app. now left.
      - apply (Permutation_in _
                 (Permutation_sym (insertionStep_perm cmp' x acc))) in Hc.
        destruct Hc as [<-|Hc]; [now left|].
        simpl. right. apply in_or_app. now right. }
    apply Hagree; now apply Hin.
  - intros y Hy. apply Hagree.
    + now left.
    + simpl. right. apply in_or_app. now right.
Qed.

Lemma SortStableFunc_ext {E : Type} (cmp cmp' : E -> E -> Z) (l : list E) :
  (forall a b, In a l -> In b l -> (cmp a b <? 0) = (cmp' a b <? 0)) ->
  slices.SortStableFunc cmp l = slices.SortStableFunc cmp' l.
Proof.
  intro Hagree. unfold slices.SortStableFunc. f_equal.
  apply (insertAll_ext cmp cmp' l []).
  intros a b Ha Hb. rewrite app_nil_r in Ha, Hb. now apply Hagree.
Qed.

(** A list in which no element is less than an element before it is left
    as it is. *)
Lemma insertAll_in_order {E : Type} (cmp : E -> E -> Z) (l : list E) :
  forall acc,
    StronglySorted (fun a b => (cmp b a <? 0) = false) l ->
    (forall x y, In x l -> In y acc -> (cmp x y <? 0) = false) ->
    insertAll_ cmp l acc = rev l ++ acc.
Proof.
  unfold insertAll_.
  induction l as [|x l IH]; intros acc Hs Hacc; [reflexivity|].
  apply StronglySorted_inv in Hs as [Hs Hx].
  cbn [fold_left].
  assert (Hstep : slices.insertionStep cmp x acc = x :: acc).
  { destruct acc as [|y acc]; [reflexivity|].
    cbn [slices.insertionStep].
    now rewrite (Hacc x y (or_introl eq_refl) (or_introl eq_refl)). }
  rewrite Hstep, IH; [simpl; now rewrite <- app_assoc | exact Hs |].
  intros x' y Hx' [<-|Hy].
  - rewrite Forall_forall in Hx. now apply Hx.
  - apply Hacc; [now right | exact Hy].
Qed.

Lemma SortStableFunc_in_order {E : Type} (cmp : E -> E -> Z) (l : list E) :
  StronglySorted (fun a b => (cmp b a <? 0) = false) l ->
  slices.SortStableFunc cmp l = l.
Proof.
  intro Hs. unfold slices.SortStableFunc.
  pose proof (insertAll_in_order cmp l [] Hs) as Hid.
  unfold insertAll_ in Hid. rewrite Hid.
  - now rewrite app_nil_r, rev_involutive.
  - intros x y _ [].
Qed.

Lemma StronglySorted_map {A B : Type} (R : B -> B -> Prop) (f : A -> B)
    (l : list A) :
  StronglySorted R (map f l) <->
  StronglySorted (fun a b => R (f a) (f b)) l.
Proof.
  induction l as [|x l IH]; simpl.
  - split; constructor.
  - split; intro Hs; apply StronglySorted_inv in Hs as [Hs Hx];
      constructor; try (now apply IH).
    + rewrite Forall_map in Hx. exact Hx.
    + rewrite Forall_map. exact Hx.
Qed.

(** ** The exporter *)

Section Exporter.
Context `{Env}.

Import slogtrace.

Lemma fold_appendEvent (level : slog.Level) (events : list trace.Event) :
  forall records,
    fold_left (appendEvent level) events records =
    records ++ map (eventRecord level) events.
Proof.
  induction events as [|ev events IH]; intro records; simpl.
  - now rewrite app_nil_r.
  - rewrite IH. unfold appendEvent. now rewrite <- app_assoc.
Qed.

Lemma appendSpan_recordsOf (records : list slog.Record)
    (span : trace.ReadOnlySpan) :
  appendSpan records span = records ++ recordsOf span.
Proof.
  unfold appendSpan, recordsOf.
  rewrite fold_appendEvent. now rewrite <- app_assoc.
Qed.

Lemma fold_appendSpan (spans : list trace.ReadOnlySpan) :
  forall records,
    fold_left appendSpan spans records = records ++ flat_map recordsOf spans.
Proof.
  induction spans as [|span spans IH]; intro records; simpl.
  - now rewrite app_nil_r.
  - rewrite IH, appendSpan_recordsOf. now rewrite <- app_assoc.
Qed.

Lemma buildRecords_flat_map (spans : list trace.ReadOnlySpan) :
  buildRecords spans = flat_map recordsOf spans.
Proof. unfold buildRecords. now rewrite fold_appendSpan. Qed.

Lemma compareRecords_Before (a b : slog.Record) :
  compareRecords a b < 0 <-> time.Before (slog.Time a) (slog.Time b) = true.
Proof.
  unfold compareRecords.
  destruct (time.eqb (slog.Time a) (slog.Time b)) eqn:He.
  - unfold time.eqb in He.
    apply andb_prop in He as [He _]. apply andb_prop in He as [Hw Hm].
    apply Z.eqb_eq in Hw. unfold time.Before.
    destruct (time.mono (slog.Time a)) as [ma|],
             (time.mono (slog.Time b)) as [mb|];
      simpl in Hm; try discriminate Hm;
      [apply Z.eqb_eq in Hm; subst mb; rewrite Z.ltb_irrefl
      | rewrite Hw, Z.ltb_irrefl];
      split; intro Hx; [lia | discriminate Hx | lia | discriminate Hx].
  - destruct (time.Before (slog.Time a) (slog.Time b));
      split; intro Hx; try reflexivity; try lia; discriminate Hx.
Qed.

Lemma Before_clockReading (t u : time.Time) :
  time.hasMonotonic t = time.hasMonotonic u ->
  time.Before t u = (clockReading t <? clockReading u).
Proof.
  unfold time.hasMonotonic, time.Before, clockReading.
  destruct (time.mono t), (time.mono u); intro Hm;
    try discriminate Hm; reflexivity.
Qed.

Lemma oneClock_same (ts : list time.Time) (t u : time.Time) :
  oneClock ts = true -> In t ts -> In u ts ->
  time.hasMonotonic t = time.hasMonotonic u.
Proof.
  unfold oneClock. intros Hone Ht Hu.
  apply orb_prop in Hone as [Hall|Hall];
    rewrite forallb_forall in Hall;
    pose proof (Hall t Ht) as H1; pose proof (Hall u Hu) as H2.
  - now rewrite H1, H2.
  - destruct (time.hasMonotonic t), (time.hasMonotonic u);
      try reflexivity; discriminate.
Qed.

Lemma compareReadings_key (a b : slog.Record) :
  compareReadings a b < 0 <-> recordReading a < recordReading b.
Proof.
  unfold compareReadings.
  destruct (recordReading a <? recordReading b) eqn:Hl;
    [apply Z.ltb_lt in Hl | apply Z.ltb_ge in Hl]; lia.
Qed.

(** On records whose times are all of one sort the comparison of the
    exporter is the comparison of the readings. *)
Lemma compareRecords_oneClock (l : list slog.Record) :
  oneClock (map slog.Time l) = true ->
  slices.SortStableFunc compareRecords l =
  slices.SortStableFunc compareReadings l.
Proof.
  intro Hone. apply SortStableFunc_ext. intros a b Ha Hb.
  assert (Hsame : time.hasMonotonic (slog.Time a) =
                  time.hasMonotonic (slog.Time b)).
  { apply (oneClock_same (map slog.Time l)); [exact Hone | |];
      now apply in_map. }
  pose proof (compareRecords_Before a b) as H1.
  pose proof (compareReadings_key a b) as H2.
  rewrite (Before_clockReading _ _ Hsame) in H1.
  fold (recordReading a) in H1. fold (recordReading b) in H1.
  destruct (compareRecords a b <? 0) eqn:Hc1;
    destruct (compareReadings a b <? 0) eqn:Hc2; try reflexivity;
    [apply Z.ltb_lt in Hc1; apply Z.ltb_ge in Hc2
    | apply Z.ltb_ge in Hc1; apply Z.ltb_lt in Hc2];
    exfalso.
  - apply H1 in Hc1. apply Z.ltb_lt in Hc1. apply H2 in Hc1. lia.
  - apply H2 in Hc2. apply Z.ltb_lt in Hc2. apply H1 in Hc2. lia.
Qed.

Lemma map_flat_map_recordsOf {A : Type} (f : slog.Record -> A)
    (g : trace.ReadOnlySpan -> A) (h : trace.Event -> A)
    (spans : list trace.ReadOnlySpan) :
  (forall span, f (spanRecord span) = g span) ->
  (forall level event, f (eventRecord level event) = h event) ->
  map f (flat_map recordsOf spans) =
  flat_map (fun span => g span :: map h (trace.Events span)) spans.
Proof.
  intros Hg Hh.
  induction spans as [|span spans IH]; [reflexivity|].
  cbn [flat_map]. rewrite map_app, IH. f_equal.
  unfold recordsOf. cbn [map]. rewrite Hg, map_map. f_equal.
  apply map_ext. intro event. apply Hh.
Qed.

Lemma buildRecords_times (spans : list trace.ReadOnlySpan) :
  map slog.Time (buildRecords spans) = batchTimes spans.
Proof.
  rewrite buildRecords_flat_map. unfold batchTimes.
  apply map_flat_map_recordsOf; reflexivity.
Qed.

(** *** The delivery loop *)

Lemma deliver_prefix (ctx : context.Context) (records : list slog.Record) :
  forall b,
    exists n,
      attempted (snd (deliver ctx records b)) =
      attempted b ++ firstn n records.
Proof.
  induction records as [|r records IH]; intro b; cbn [deliver].
  - exists 0%nat. simpl. now rewrite app_nil_r.
  - unfold callHandle.
    destruct (Handle ctx r (handler b)) as [h [err|]].
    + exists 1%nat. unfold attempted. cbn. now rewrite map_app.
    + destruct (IH (mkBackend h (calls b ++ [(r, None)]))) as [n Hn].
      exists (S n). etransitivity; [exact Hn|]. unfold attempted. cbn.
      now rewrite map_app, <- app_assoc.
Qed.

Lemma deliver_all (ctx : context.Context) (records : list slog.Record) :
  forall b,
    fst (deliver ctx records b) = None ->
    calls (snd (deliver ctx records b)) =
    calls b ++ map (fun r => (r, None)) records.
Proof.
  induction records as [|r records IH]; intros b Hok; simpl in *.
  - now rewrite app_nil_r.
  - unfold callHandle in *.
    destruct (Handle ctx r (handler b)) as [h [err|]]; [discriminate|].
    rewrite (IH _ Hok). simpl. now rewrite <- app_assoc.
Qed.

Lemma deliver_accepts (ctx : context.Context) (pre : list slog.Record)
    (h h1 : HandlerState) :
  accepts ctx h pre h1 ->
  forall cs rest,
    deliver ctx (pre ++ rest) (mkBackend h cs) =
    deliver ctx rest (mkBackend h1 (cs ++ map (fun r => (r, None)) pre)).
Proof.
  induction 1 as [h|h r h1 rs h2 Hh Hacc IH]; intros cs rest; simpl.
  - now rewrite app_nil_r.
  - unfold callHandle. simpl. rewrite Hh. rewrite IH.
    now rewrite <- app_assoc.
Qed.

Lemma filter_accepted (rs : list slog.Record) :
  filter (fun c : slog.Record * error => isNil (snd c))
         (map (fun r => (r, None)) rs) =
  map (fun r => (r, None)) rs.
Proof.
  induction rs as [|r rs IH]; simpl; [reflexivity | now rewrite IH].
Qed.

Lemma fst_accepted (rs : list slog.Record) :
  map fst (map (fun r : slog.Record => (r, @None Err)) rs) = rs.
Proof.
  induction rs as [|r rs IH]; simpl; [reflexivity | now rewrite IH].
Qed.

Lemma ExportSpans_active (e : Exporter) (ctx : context.Context)
    (spans : list trace.ReadOnlySpan) (b : Backend) :
  stopped e = false ->
  ExportSpans e ctx spans b =
  deliver ctx (slices.SortStableFunc compareRecords (buildRecords spans)) b.
Proof.
  intro He. unfold ExportSpans. rewrite He.
  destruct spans as [|span spans]; reflexivity.
Qed.

(** C9: when the handler accepts the first records [pre] of the sorted
    sequence and fails with [err] on the next one, [r], [ExportSpans]
    returns [err]; the handler has been given [pre] and [r] and nothing of
    what follows [r]; the records of [pre] stay delivered. *)
Theorem partial_delivery (e : Exporter) (ctx : context.Context)
    (spans : list trace.ReadOnlySpan) (b : Backend)
    (pre post : list slog.Record) (r : slog.Record)
    (h1 h2 : HandlerState) (err : Err) :
  stopped e = false ->
  slices.SortStableFunc compareRecords (buildRecords spans) =
    pre ++ r :: post ->
  accepts ctx (handler b) pre h1 ->
  Handle ctx r h1 = (h2, Some err) ->
  let result := ExportSpans e ctx spans b in
  fst result = Some err
  /\ calls (snd result) =
     calls b ++ map (fun x => (x, None)) pre ++ [(r, Some err)]
  /\ attempted (snd result) = attempted b ++ pre ++ [r]
  /\ delivered (snd result) = delivered b ++ pre.
Proof.
  intros He Hsorted Hacc Hfail result. subst result.
  rewrite (ExportSpans_active e ctx spans b He), Hsorted.
  destruct b as [h cs]. simpl in Hacc.
  rewrite (deliver_accepts ctx pre h h1 Hacc cs (r :: post)).
  simpl. unfold callHandle. simpl. rewrite Hfail. simpl.
  unfold attempted, delivered. simpl.
  rewrite <- !app_assoc.
  repeat split.
  - rewrite !map_app, fst_accepted. reflexivity.
  - rewrite !filter_app, !map_app, filter_accepted, fst_accepted. simpl.
    now rewrite app_nil_r.
Qed.

End Exporter.

Section Records.
Context `{Env}.

Import slogtrace.

Lemma ExportSpans_delivers_sorted (e : Exporter) (ctx : context.Context)
    (spans : list trace.ReadOnlySpan) (b : Backend) :
  stopped e = false ->
  fst (ExportSpans e ctx spans b) = None ->
  attempted (snd (ExportSpans e ctx spans b)) =
  attempted b ++ slices.SortStableFunc compareRecords (buildRecords spans).
Proof.
  intros He Hok.
  rewrite (ExportSpans_active e ctx spans b He) in *.
  unfold attempted. rewrite (deliver_all ctx _ b Hok).
  now rewrite map_app, fst_accepted.
Qed.

Lemma deliver_accepting (ctx : context.Context) :
  (forall r h, snd (Handle ctx r h) = None) ->
  forall records b, fst (deliver ctx records b) = None.
Proof.
  intros Hacc records.
  induction records as [|r records IH]; intro b; cbn [deliver];
    [reflexivity|].
  unfold callHandle. specialize (Hacc r (handler b)).
  destruct (Handle ctx r (handler b)) as [h err]. simpl in Hacc. subst err.
  apply IH.
Qed.

Lemma ExportSpans_accepting (e : Exporter) (ctx : context.Context)
    (spans : list trace.ReadOnlySpan) (b : Backend) :
  (forall r h, snd (Handle ctx r h) = None) ->
  fst (ExportSpans e ctx spans b) = None.
Proof.
  intro Hacc. unfold ExportSpans.
  destruct (stopped e); [reflexivity|].
  destruct (List.length spans =? 0)%nat; [reflexivity|].
  now apply deliver_accepting.
Qed.

Lemma attributesToAttrs_keys_incl (l : list attribute.KeyValue) :
  incl (map slog.Key (attributesToAttrs l)) (map attribute.Key l).
Proof.
  rewrite attributesToAttrs_keys. intros k Hk.
  apply in_map_iff in Hk as [a [<- Ha]].
  apply filter_In in Ha as [Ha _]. now apply in_map.
Qed.

(** C3: when the handler accepts every record, an export on an active
    exporter returns [nil], and the records it has handed to the handler
    are, up to the order the sort gives them, one record per span and one
    per event.  The record named after a span has the [duration] pair as
    its first attribute, whose value is the text [Duration.String] gives
    for the end time minus the start time, followed by the span's
    converted attributes.  The record named after an event has the
    event's converted attributes and nothing else: no [duration] pair is
    added to it, and the converter gives no key that its input does not
    have. *)
Theorem duration_attribute (e : Exporter) (ctx : context.Context)
    (spans : list trace.ReadOnlySpan) (b : Backend) :
  stopped e = false ->
  (forall r h, snd (Handle ctx r h) = None) ->
  fst (ExportSpans e ctx spans b) = None
  /\ exists new,
    attempted (snd (ExportSpans e ctx spans b)) = attempted b ++ new
    /\ Permutation
         (map (fun r => (slog.Message r, slog.Attrs r)) new)
         (flat_map
            (fun span =>
               (trace.Name span,
                slog.String "duration"
                  (time.Duration_String
                     (time.Sub (trace.EndTime span) (trace.StartTime span)))
                :: attributesToAttrs (trace.Attributes span))
               :: map (fun event =>
                         (trace.Event_Name event,
                          attributesToAttrs (trace.Event_Attributes event)))
                      (trace.Events span))
            spans)
    /\ (forall attributes,
          incl (map slog.Key (attributesToAttrs attributes))
               (map attribute.Key attributes)).
Proof.
  intros He Hacc.
  pose proof (ExportSpans_accepting e ctx spans b Hacc) as Hok.
  split; [exact Hok|].
  exists (slices.SortStableFunc compareRecords (buildRecords spans)).
  split; [now apply ExportSpans_delivers_sorted|].
  split; [|apply attributesToAttrs_keys_incl].
  rewrite <- (Permutation_map _
                (SortStableFunc_perm compareRecords (buildRecords spans))).
  rewrite buildRecords_flat_map.
  rewrite (map_flat_map_recordsOf
             (fun r => (slog.Message r, slog.Attrs r))
             (fun span =>
                (trace.Name span,
                 slog.String "duration"
                   (time.Duration_String
                      (time.Sub (trace.EndTime span) (trace.StartTime span)))
                 :: attributesToAttrs (trace.Attributes span)))
             (fun event =>
                (trace.Event_Name event,
                 attributesToAttrs (trace.Event_Attributes event))));
    reflexivity.
Qed.

(** The level derived from a status code. *)
Lemma spanLevel_code (span : trace.ReadOnlySpan) :
  spanLevel span =
  match trace.Code (trace.Status_ span) with
  | codes.Error => slog.LevelError
  | codes.Unset | codes.Ok => slog.LevelInfo
  end.
Proof.
  unfold spanLevel. destruct (trace.Code (trace.Status_ span)); reflexivity.
Qed.

(** C4: when the handler accepts every record, an export on an active
    exporter returns [nil], and the records it has handed to the handler
    are, up to the order the sort gives them, one record per span and one
    per event; the record named after a span has the level error when the
    status code of the span is [Error] and the level info for the two
    other codes, and the record named after an event has the level of the
    record of its span.  The two levels differ. *)
Theorem severity_mapping (e : Exporter) (ctx : context.Context)
    (spans : list trace.ReadOnlySpan) (b : Backend) :
  stopped e = false ->
  (forall r h, snd (Handle ctx r h) = None) ->
  fst (ExportSpans e ctx spans b) = None
  /\ exists new,
    attempted (snd (ExportSpans e ctx spans b)) = attempted b ++ new
    /\ Permutation
         (map (fun r => (slog.Message r, slog.Level_ r)) new)
         (flat_map
            (fun span =>
               (trace.Name span,
                match trace.Code (trace.Status_ span) with
                | codes.Error => slog.LevelError
                | codes.Unset | codes.Ok => slog.LevelInfo
                end)
               :: map (fun event =>
                         (trace.Event_Name event,
                          match trace.Code (trace.Status_ span) with
                          | codes.Error => slog.LevelError
                          | codes.Unset | codes.Ok => slog.LevelInfo
                          end))
                      (trace.Events span))
            spans)
    /\ slog.LevelError <> slog.LevelInfo.
Proof.
  intros He Hacc.
  pose proof (ExportSpans_accepting e ctx spans b Hacc) as Hok.
  split; [exact Hok|].
  exists (slices.SortStableFunc compareRecords (buildRecords spans)).
  split; [now apply ExportSpans_delivers_sorted|].
  split; [|discriminate].
  rewrite <- (Permutation_map _
                (SortStableFunc_perm compareRecords (buildRecords spans))).
  rewrite buildRecords_flat_map.
  clear He Hacc Hok.
  induction spans as [|span spans IH]; [reflexivity|].
  cbn [flat_map]. rewrite map_app. apply Permutation_app; [|exact IH].
  unfold recordsOf. cbn [map]. rewrite map_map.
  change (slog.Level_ (spanRecord span)) with (spanLevel span).
  rewrite (map_ext
             (fun event =>
                (slog.Message (eventRecord (spanLevel span) event),
                 slog.Level_ (eventRecord (spanLevel span) event)))
             (fun event => (trace.Event_Name event, spanLevel span)))
    by reflexivity.
  rewrite spanLevel_code. reflexivity.
Qed.

(** *** The lifecycle *)

Lemma ExportSpans_stopped (e : Exporter) (ctx : context.Context)
    (spans : list trace.ReadOnlySpan) (b : Backend) :
  stopped e = true -> ExportSpans e ctx spans b = (None, b).
Proof. intro He. unfold ExportSpans. now rewrite He. Qed.

Lemma Shutdown_stopped (e : Exporter) (ctx : context.Context) :
  stopped (snd (Shutdown e ctx)) = true.
Proof. unfold Shutdown. destruct (context.Done ctx); reflexivity. Qed.

Lemma run_stopped (cs : list Call) :
  forall s,
    stopped (exporter s) = true ->
    backend (snd (run cs s)) = backend s
    /\ stopped (exporter (snd (run cs s))) = true
    /\ Forall2 resultWhenStopped cs (fst (run cs s)).
Proof.
  induction cs as [|c cs IH]; intros s Hs; cbn [run].
  - simpl. repeat split; [exact Hs | constructor].
  - destruct (step c s) as [err s1] eqn:Hstep.
    assert (H1 : backend s1 = backend s /\ stopped (exporter s1) = true
                 /\ resultWhenStopped c err).
    { destruct c as [ctx spans | ctx]; cbn [step] in Hstep.
      - rewrite (ExportSpans_stopped _ ctx spans _ Hs) in Hstep.
        inversion Hstep; subst. simpl. repeat split. exact Hs.
      - pose proof (Shutdown_stopped (exporter s) ctx) as Hst.
        unfold Shutdown in *.
        destruct ctx as [|reason]; simpl in *;
          inversion Hstep; subst; simpl; repeat split. }
    destruct H1 as [Hb [He Hr]].
    destruct (IH s1 He) as [Hb' [He' Hf]].
    destruct (run cs s1) as [errs s2]. simpl in *.
    repeat split; [congruence | exact He' | now constructor].
Qed.

(** C7: once a [Shutdown] has returned, whatever its result, every later
    [ExportSpans] returns [nil] and hands nothing to the handler: over any
    sequence of later calls the backend stays as it was, every
    [ExportSpans] of the sequence returns [nil], and the exporter stays
    stopped. *)
Theorem post_shutdown_silence (s : System) (ctx0 ctx : context.Context)
    (spans : list trace.ReadOnlySpan) (cs : list Call) :
  let s1 := snd (step (CallShutdown ctx0) s) in
  ExportSpans (exporter s1) ctx spans (backend s1) = (None, backend s)
  /\ backend (snd (run cs s1)) = backend s
  /\ stopped (exporter (snd (run cs s1))) = true
  /\ Forall2 resultWhenStopped cs (fst (run cs s1)).
Proof.
  intro s1.
  assert (Hs1 : stopped (exporter s1) = true /\ backend s1 = backend s).
  { subst s1. cbn [step]. unfold Shutdown.
    destruct (context.Done ctx0); simpl; split; reflexivity. }
  destruct Hs1 as [Hst Hb].
  split.
  - rewrite (ExportSpans_stopped _ ctx spans _ Hst). now rewrite Hb.
  - rewrite <- Hb. apply run_stopped, Hst.
Qed.

(** C8: [Shutdown] leaves the exporter stopped whatever the exporter and
    the context were, a second [Shutdown] leaves it as the first did, and
    the result is the context's error when the context is already done
    and [nil] when it is not. *)
Theorem shutdown_sets_flag (e : Exporter) (ctx ctx' : context.Context) :
  stopped (snd (Shutdown e ctx)) = true
  /\ snd (Shutdown (snd (Shutdown e ctx)) ctx') = snd (Shutdown e ctx)
  /\ fst (Shutdown e ctx) =
     match ctx with
     | context.Live => None
     | context.Finished reason => Some reason
     end
  /\ (fst (Shutdown e ctx) = None <-> context.Done ctx = false).
Proof.
  unfold Shutdown.
  destruct ctx as [|reason], ctx' as [|reason']; simpl;
    repeat split; intro Hx; try reflexivity; discriminate.
Qed.

End Records.

(** ** Concrete runs *)


Example demo_rendering :
  map slog.Attrs (slogtrace.buildRecords [demoSpan]) =
  [[slog.String "duration" "20ns";
    slog.String "string" "hello world";
    slog.String "ints" "[1 1 2 3 5 8 13]"];
   [slog.String "duration" "x"]].
Proof. reflexivity. Qed.

Example demo_sorted :
  map slog.Message
      (slices.SortStableFunc slogtrace.compareRecords
         (slogtrace.buildRecords demoBatch)) =
  ["test"; "test error"; "test event"].
Proof. reflexivity. Qed.

Example demo_durations :
  map time.Duration_String
      [0; 20; 1500000; 2000000000; 1500000000; 61000000000;
       3723500000000; -2000000000] =
  ["0s"; "20ns"; "1.5ms"; "2s"; "1.5s"; "1m1s"; "1h2m3.5s"; "-2s"].
Proof. reflexivity. Qed.

Example demo_slices :
  fmt.Sprintf_bools [true; false] = "[true false]"
  /\ fmt.Sprintf_strings ["hello"; "world"] = "[hello world]"
  /\ fmt.Sprintf_int64s [] = "[]"
  /\ fmt.Sprintf_int64s [-7] = "[-7]".
Proof. repeat split; reflexivity. Qed.

(** The converter on a list with an attribute of the zero kind between
    two others. *)
Lemma unknown_kind_skipped_witness :
  ~ In (attribute.Value_Type attribute.ZeroValue)
       [attribute.BOOL; attribute.INT64; attribute.FLOAT64; attribute.STRING;
        attribute.BOOLSLICE; attribute.INT64SLICE; attribute.FLOAT64SLICE;
        attribute.STRINGSLICE]
  /\ slogtrace.attributesToAttrs
       ([attribute.mkKeyValue "a" (attribute.BoolValue true)] ++
        attribute.mkKeyValue "none" attribute.ZeroValue ::
        [attribute.mkKeyValue "b" (attribute.Int64Value 42)]) =
     [slog.Bool "a" true; slog.Int64 "b" 42].
Proof.
  assert (Hkind :
    ~ In (attribute.Value_Type attribute.ZeroValue)
       [attribute.BOOL; attribute.INT64; attribute.FLOAT64; attribute.STRING;
        attribute.BOOLSLICE; attribute.INT64SLICE; attribute.FLOAT64SLICE;
        attribute.STRINGSLICE]).
  { simpl. intros [Hx|[Hx|[Hx|[Hx|[Hx|[Hx|[Hx|[Hx|[]]]]]]]]]; discriminate Hx. }
  split; [exact Hkind|].
  exact (proj2 (@unknown_kind_skipped demoEnv
                  [attribute.mkKeyValue "a" (attribute.BoolValue true)]
                  [attribute.mkKeyValue "b" (attribute.Int64Value 42)]
                  (attribute.mkKeyValue "none" attribute.ZeroValue) Hkind)).
Defined.

(** [demoBatch] on a handler that takes one record and fails on the
    second of three. *)
Lemma partial_delivery_witness :
  slogtrace.stopped activeExporter = false
  /\ slices.SortStableFunc slogtrace.compareRecords
       (slogtrace.buildRecords demoBatch) =
     [slogtrace.spanRecord demoSpan] ++
     slogtrace.spanRecord demoErrorSpan ::
     [slogtrace.eventRecord slog.LevelInfo demoEvent]
  /\ fst (slogtrace.ExportSpans activeExporter context.Background demoBatch
            (demoBackend 1)) = Some (HandlerError "write failed")
  /\ slogtrace.attempted
       (snd (slogtrace.ExportSpans activeExporter context.Background
               demoBatch (demoBackend 1))) =
     [slogtrace.spanRecord demoSpan; slogtrace.spanRecord demoErrorSpan]
  /\ slogtrace.delivered
       (snd (slogtrace.ExportSpans activeExporter context.Background
               demoBatch (demoBackend 1))) =
     [slogtrace.spanRecord demoSpan].
Proof.
  assert (Hsorted :
    slices.SortStableFunc slogtrace.compareRecords
       (slogtrace.buildRecords demoBatch) =
     [slogtrace.spanRecord demoSpan] ++
     slogtrace.spanRecord demoErrorSpan ::
     [slogtrace.eventRecord slog.LevelInfo demoEvent]) by reflexivity.
  assert (Hacc :
    slogtrace.accepts context.Background
      (slogtrace.handler (demoBackend 1))
      [slogtrace.spanRecord demoSpan] 0%nat).
  { eapply slogtrace.accepts_cons; [reflexivity | apply slogtrace.accepts_nil]. }
  destruct (@partial_delivery demoEnv activeExporter context.Background
              demoBatch (demoBackend 1)
              [slogtrace.spanRecord demoSpan]
              [slogtrace.eventRecord slog.LevelInfo demoEvent]
              (slogtrace.spanRecord demoErrorSpan)
              0%nat 0%nat (HandlerError "write failed")
              eq_refl Hsorted Hacc eq_refl)
    as [Herr [_ [Hatt Hdel]]].
  split; [reflexivity|]. split; [exact Hsorted|].
  split; [exact Herr|]. split; [exact Hatt | exact Hdel].
Defined.

(** * Further properties of the exporter *)

(** Sorting a list that is already in ascending order of the key leaves
    it as it is. *)
Lemma SortStableFunc_sorted_id {E : Type} (cmp : E -> E -> Z) (key : E -> Z)
    (l : list E) :
  (forall a b, cmp a b < 0 <-> key a < key b) ->
  StronglySorted (fun a b => key a <= key b) l ->
  slices.SortStableFunc cmp l = l.
Proof.
  intros Hcmp Hs.
  apply (sorted_stable_unique key).
  - apply (SortStableFunc_sorted cmp key Hcmp).
  - exact Hs.
  - intro t. apply (SortStableFunc_stable cmp key Hcmp).
Qed.

Section MoreExporter.
Context `{Env}.

Import slogtrace.

Lemma recordsOf_length (span : trace.ReadOnlySpan) :
  List.length (recordsOf span) = S (List.length (trace.Events span)).
Proof. unfold recordsOf. simpl. now rewrite length_map. Qed.

Lemma buildRecords_length (spans : list trace.ReadOnlySpan) :
  List.length (buildRecords spans) =
  (List.length spans + eventCount spans)%nat.
Proof.
  rewrite buildRecords_flat_map.
  induction spans as [|span spans IH]; [reflexivity|].
  change (flat_map recordsOf (span :: spans))
    with (recordsOf span ++ flat_map recordsOf spans).
  change (eventCount (span :: spans))
    with (List.length (trace.Events span) + eventCount spans)%nat.
  rewrite length_app, recordsOf_length, IH. simpl. lia.
Qed.

Lemma buildRecords_app (spans1 spans2 : list trace.ReadOnlySpan) :
  buildRecords (spans1 ++ spans2) = buildRecords spans1 ++ buildRecords spans2.
Proof. rewrite !buildRecords_flat_map. apply flat_map_app. Qed.

(** What the delivery loop does, in all cases. *)
Lemma deliver_outcome (ctx : context.Context) (records : list slog.Record) :
  forall b,
    (fst (deliver ctx records b) = None /\
     calls (snd (deliver ctx records b)) = calls b ++ map accepted records)
    \/
    (exists pre r post err,
       records = pre ++ r :: post /\
       fst (deliver ctx records b) = Some err /\
       calls (snd (deliver ctx records b)) =
       calls b ++ map accepted pre ++ [(r, Some err)]).
Proof.
  induction records as [|r records IH]; intro b; cbn [deliver].
  - left. simpl. now rewrite app_nil_r.
  - unfold callHandle.
    destruct (Handle ctx r (handler b)) as [h [err|]].
    + right. exists [], r, records, err. repeat split.
    + destruct (IH (mkBackend h (calls b ++ [(r, None)])))
        as [[Hok Hcalls] | [pre [r' [post [err [Hrec [Herr Hcalls]]]]]]].
      * left. split; [exact Hok|].
        etransitivity; [exact Hcalls|]. simpl.
        now rewrite <- app_assoc.
      * right. exists (r :: pre), r', post, err.
        split; [now rewrite Hrec|]. split; [exact Herr|].
        etransitivity; [exact Hcalls|]. simpl.
        now rewrite <- app_assoc.
Qed.

Lemma deliver_ctx (ctx1 ctx2 : context.Context) :
  (forall r h, Handle ctx1 r h = Handle ctx2 r h) ->
  forall records b, deliver ctx1 records b = deliver ctx2 records b.
Proof.
  intros Hctx records.
  induction records as [|r records IH]; intro b; cbn [deliver];
    [reflexivity|].
  unfold callHandle. rewrite (Hctx r (handler b)).
  destruct (Handle ctx2 r (handler b)) as [h [err|]]; [reflexivity|].
  apply IH.
Qed.

Lemma empty_batch_noop (e : Exporter) (ctx : context.Context)
    (b : Backend) :
  ExportSpans e ctx [] b = (None, b).
Proof. unfold ExportSpans. destruct (stopped e); reflexivity. Qed.

(** X1: an export leaves the record of handler calls as it was exactly
    when the exporter is stopped or the batch is empty: an empty batch is
    a no-op, and a batch with a span on an active exporter always reaches
    the handler. *)
Theorem handler_untouched_iff (e : Exporter) (ctx : context.Context)
    (spans : list trace.ReadOnlySpan) (b : Backend) :
  calls (snd (ExportSpans e ctx spans b)) = calls b <->
  stopped e = true \/ spans = [].
Proof.
  split.
  - intro Hcalls.
    destruct (stopped e) eqn:He; [now left|].
    destruct spans as [|span spans]; [now right|].
    exfalso.
    rewrite (ExportSpans_active e ctx _ b He) in Hcalls.
    pose proof (Permutation_length
                  (SortStableFunc_perm compareRecords
                     (buildRecords (span :: spans)))) as Hlen.
    rewrite buildRecords_length in Hlen. cbn [List.length] in Hlen.
    apply (f_equal (@List.length _)) in Hcalls.
    destruct (deliver_outcome ctx
                (slices.SortStableFunc compareRecords
                   (buildRecords (span :: spans))) b)
      as [[_ Hc] | [pre [r [post [err [_ [_ Hc]]]]]]];
      rewrite Hc in Hcalls;
      rewrite ?length_app, ?length_map in Hcalls; simpl in Hcalls; lia.
  - intros [He | ->].
    + now rewrite (ExportSpans_stopped e ctx spans b He).
    + now rewrite empty_batch_noop.
Qed.

(** X2: a batch gives one record per span and one per event, and an
    export that returns [nil] on an active exporter has called the handler
    exactly that many times. *)
Theorem record_count (e : Exporter) (ctx : context.Context)
    (spans : list trace.ReadOnlySpan) (b : Backend) :
  stopped e = false ->
  fst (ExportSpans e ctx spans b) = None ->
  List.length (buildRecords spans) =
    (List.length spans + eventCount spans)%nat
  /\ List.length (calls (snd (ExportSpans e ctx spans b))) =
     (List.length (calls b) + List.length spans + eventCount spans)%nat.
Proof.
  intros He Hok. split; [apply buildRecords_length|].
  rewrite (ExportSpans_active e ctx spans b He) in *.
  rewrite (deliver_all ctx _ b Hok).
  rewrite length_app, length_map.
  rewrite <- (Permutation_length (SortStableFunc_perm compareRecords _)).
  rewrite buildRecords_length. lia.
Qed.

(** X3: an export on an active exporter ends in one of two ways.  Either
    it returns [nil] and the handler has accepted every record of the
    sorted sequence; or it returns the error of a call of the handler,
    that call is the last one made, and all the calls before it were
    accepted: an export makes at most one failing call and returns no
    error of its own. *)
Theorem export_outcome (e : Exporter) (ctx : context.Context)
    (spans : list trace.ReadOnlySpan) (b : Backend) :
  stopped e = false ->
  let sorted := slices.SortStableFunc compareRecords (buildRecords spans) in
  let result := ExportSpans e ctx spans b in
  (fst result = None /\
   calls (snd result) = calls b ++ map accepted sorted)
  \/
  (exists pre r post err,
     sorted = pre ++ r :: post /\
     fst result = Some err /\
     calls (snd result) = calls b ++ map accepted pre ++ [(r, Some err)]).
Proof.
  intros He sorted result. subst result.
  rewrite (ExportSpans_active e ctx spans b He). fold sorted.
  apply deliver_outcome.
Qed.

(** X4: [ExportSpans] does not look at its context, it only hands it to
    the handler: with a handler that does not depend on the context, the
    export under one context, cancelled or not, is the export under any
    other. *)
Theorem context_only_forwarded (e : Exporter) (ctx1 ctx2 : context.Context)
    (spans : list trace.ReadOnlySpan) (b : Backend) :
  (forall r h, Handle ctx1 r h = Handle ctx2 r h) ->
  ExportSpans e ctx1 spans b = ExportSpans e ctx2 spans b.
Proof.
  intro Hctx. unfold ExportSpans.
  destruct (stopped e); [reflexivity|].
  destruct (List.length spans =? 0)%nat; [reflexivity|].
  apply deliver_ctx, Hctx.
Qed.

(** X6: when no timestamp of a batch is before a timestamp that comes
    earlier in the build traversal, in the sense of [Before], the sort
    leaves the records as they were built: an active exporter delivers
    them in the order of the build traversal. *)
Theorem sorted_batch_keeps_traversal_order (e : Exporter)
    (ctx : context.Context) (spans : list trace.ReadOnlySpan) (b : Backend) :
  stopped e = false ->
  StronglySorted (fun t1 t2 => time.Before t2 t1 = false)
                 (batchTimes spans) ->
  slices.SortStableFunc compareRecords (buildRecords spans) =
    buildRecords spans
  /\ ExportSpans e ctx spans b = deliver ctx (flat_map recordsOf spans) b.
Proof.
  intros He Hs.
  assert (Hid : slices.SortStableFunc compareRecords (buildRecords spans) =
                buildRecords spans).
  { apply SortStableFunc_in_order.
    rewrite <- buildRecords_times in Hs.
    apply StronglySorted_map in Hs.
    revert Hs. apply StronglySorted_ind.
    - constructor.
    - intros r l Hl IHl Hr. constructor; [exact IHl|].
      rewrite Forall_forall in *. intros r' Hr'.
      specialize (Hr r' Hr').
      destruct (compareRecords r' r <? 0) eqn:Hc; [|reflexivity].
      apply Z.ltb_lt, compareRecords_Before in Hc. congruence. }
  split; [exact Hid|].
  rewrite (ExportSpans_active e ctx spans b He), Hid.
  now rewrite buildRecords_flat_map.
Qed.

(** X7: exporting two batches in one call hands the handler the records
    that exporting them one after the other would, up to their order: the
    records of a joined batch are those of its parts, and its sorted
    sequence is a rearrangement of the two sorted sequences. *)
Theorem joined_batches (spans1 spans2 : list trace.ReadOnlySpan) :
  buildRecords (spans1 ++ spans2) = buildRecords spans1 ++ buildRecords spans2
  /\ Permutation
       (slices.SortStableFunc compareRecords (buildRecords (spans1 ++ spans2)))
       (slices.SortStableFunc compareRecords (buildRecords spans1) ++
        slices.SortStableFunc compareRecords (buildRecords spans2)).
Proof.
  split; [apply buildRecords_app|].
  rewrite <- (SortStableFunc_perm compareRecords (buildRecords (spans1 ++ spans2))).
  rewrite buildRecords_app.
  apply Permutation_app; apply SortStableFunc_perm.
Qed.

(** X8: two batches exported one after the other are sorted each on its
    own: when both exports return [nil], the handler has received the
    sorted records of the first batch followed by the sorted records of
    the second. *)
Theorem successive_batches (e : Exporter) (ctx1 ctx2 : context.Context)
    (spans1 spans2 : list trace.ReadOnlySpan) (b b1 : Backend) :
  stopped e = false ->
  ExportSpans e ctx1 spans1 b = (None, b1) ->
  fst (ExportSpans e ctx2 spans2 b1) = None ->
  attempted (snd (ExportSpans e ctx2 spans2 b1)) =
  attempted b ++
  slices.SortStableFunc compareRecords (buildRecords spans1) ++
  slices.SortStableFunc compareRecords (buildRecords spans2).
Proof.
  intros He H1 H2.
  rewrite (ExportSpans_active e ctx2 spans2 b1 He) in *.
  rewrite (ExportSpans_active e ctx1 spans1 b He) in H1.
  unfold attempted. rewrite (deliver_all ctx2 _ b1 H2).
  assert (Hb1 : calls b1 =
                calls b ++
                map (fun r => (r, None))
                    (slices.SortStableFunc compareRecords
                       (buildRecords spans1))).
  { rewrite <- (deliver_all ctx1 _ b); now rewrite H1. }
  rewrite Hb1, !map_app, !fst_accepted. now rewrite <- app_assoc.
Qed.

End MoreExporter.

Section MoreConverter.
Context `{Env}.

Import slogtrace.

(** X9: the record of a span bears the span's name and its start time,
    the record of an event the event's name and time, in the order of the
    build traversal; and every record that an export hands to the handler,
    whether the export succeeds or not, has a zero program counter, the
    level info or error, and the name and time of a span or of an event
    of the batch. *)
Theorem record_fields (e : Exporter) (ctx : context.Context)
    (spans : list trace.ReadOnlySpan) (b : Backend) :
  map slog.Message (buildRecords spans) =
    flat_map (fun span =>
                trace.Name span :: map trace.Event_Name (trace.Events span))
             spans
  /\ map slog.Time (buildRecords spans) =
     flat_map (fun span =>
                 trace.StartTime span ::
                 map trace.Event_Time (trace.Events span))
              spans
  /\ exists new,
       attempted (snd (ExportSpans e ctx spans b)) = attempted b ++ new
       /\ Forall (fun r =>
                    slog.PC r = 0 /\
                    (slog.Level_ r = slog.LevelInfo \/
                     slog.Level_ r = slog.LevelError) /\
                    In (slog.Message r, slog.Time r)
                       (flat_map
                          (fun span =>
                             (trace.Name span, trace.StartTime span) ::
                             map (fun event =>
                                    (trace.Event_Name event,
                                     trace.Event_Time event))
                                 (trace.Events span))
                          spans))
                 new.
Proof.
  split; [|split].
  - rewrite buildRecords_flat_map.
    apply map_flat_map_recordsOf; reflexivity.
  - rewrite buildRecords_flat_map.
    apply map_flat_map_recordsOf; reflexivity.
  - assert (Hbuilt :
      Forall (fun r =>
                slog.PC r = 0 /\
                (slog.Level_ r = slog.LevelInfo \/
                 slog.Level_ r = slog.LevelError) /\
                In (slog.Message r, slog.Time r)
                   (flat_map
                      (fun span =>
                         (trace.Name span, trace.StartTime span) ::
                         map (fun event =>
                                (trace.Event_Name event,
                                 trace.Event_Time event))
                             (trace.Events span))
                      spans))
             (slices.SortStableFunc compareRecords (buildRecords spans))).
    { apply (Permutation_Forall (SortStableFunc_perm compareRecords _)).
      rewrite buildRecords_flat_map.
      apply Forall_forall. intros r Hr.
      apply in_flat_map in Hr as [span [Hspan Hr]].
      assert (Hlevel : spanLevel span = slog.LevelInfo \/
                       spanLevel span = slog.LevelError).
      { unfold spanLevel.
        destruct (codes.eqb (trace.Code (trace.Status_ span)) codes.Error);
          [now right | now left]. }
      destruct Hr as [<-|Hr].
      + split; [reflexivity|]. split; [exact Hlevel|].
        apply in_flat_map. exists span. split; [exact Hspan | now left].
      + apply in_map_iff in Hr as [event [<- Hev]].
        split; [reflexivity|]. split; [exact Hlevel|].
        apply in_flat_map. exists span. split; [exact Hspan|]. right.
        apply in_map_iff. exists event. split; [reflexivity | exact Hev]. }
    destruct (stopped e) eqn:He.
    + exists []. rewrite (ExportSpans_stopped e ctx spans b He).
      simpl. rewrite app_nil_r. split; [reflexivity | constructor].
    + rewrite (ExportSpans_active e ctx spans b He).
      destruct (deliver_prefix ctx
                  (slices.SortStableFunc compareRecords (buildRecords spans))
                  b) as [n Hn].
      exists (firstn n
                (slices.SortStableFunc compareRecords (buildRecords spans))).
      split; [exact Hn|].
      apply Forall_forall. intros r Hr.
      rewrite Forall_forall in Hbuilt. apply Hbuilt.
      rewrite <- (firstn_skipn n
                    (slices.SortStableFunc compareRecords
                       (buildRecords spans))).
      apply in_or_app. now left.
Qed.

(** X10: the output does not record that an attribute was a sequence, nor
    the kind of its elements: a string sequence gives the pair that the
    string of its bracketed text gives, and a sequence of booleans,
    integers or floats gives the pair that the string sequence of its
    elements' texts gives. *)
Theorem slice_kind_not_recorded (key : string) :
  (forall xs : list string,
     attributesToAttrs
       [attribute.mkKeyValue key (attribute.StringSliceValue xs)] =
     attributesToAttrs
       [attribute.mkKeyValue key
          (attribute.StringValue
             (String.append "["
                (String.append (String.concat " " xs) "]")))])
  /\ (forall xs : list bool,
        attributesToAttrs
          [attribute.mkKeyValue key (attribute.BoolSliceValue xs)] =
        attributesToAttrs
          [attribute.mkKeyValue key
             (attribute.StringSliceValue (map fmt.FormatBool xs))])
  /\ (forall xs : list Z,
        attributesToAttrs
          [attribute.mkKeyValue key (attribute.Int64SliceValue xs)] =
        attributesToAttrs
          [attribute.mkKeyValue key
             (attribute.StringSliceValue (map fmt.FormatInt xs))])
  /\ (forall xs : list Z,
        attributesToAttrs
          [attribute.mkKeyValue key (attribute.Float64SliceValue xs)] =
        attributesToAttrs
          [attribute.mkKeyValue key
             (attribute.StringSliceValue (map FormatFloat xs))]).
Proof.
  repeat split; intro xs; cbn -[String.concat fmt.printSlice];
    unfold fmt.Sprintf_bools, fmt.Sprintf_int64s, fmt.Sprintf_float64s,
      fmt.Sprintf_strings;
    rewrite !printSlice_concat, ?map_id; reflexivity.
Qed.

Lemma scalar_recognised (a : attribute.KeyValue) :
  scalar a = true -> recognised a = true.
Proof.
  unfold scalar, recognised.
  destruct (attribute.Value_Type (attribute.Value_ a));
    intro Hs; try discriminate; reflexivity.
Qed.

Lemma convert_scalar_inj (a b : attribute.KeyValue) :
  scalar a = true -> scalar b = true -> convert a = convert b -> a = b.
Proof.
  destruct a as [ka va], b as [kb vb].
  destruct va, vb; intros Ha Hb Heq;
    try discriminate Ha; try discriminate Hb;
    cbn in Heq; inversion Heq; reflexivity.
Qed.

(** X11: on attributes of the four scalar kinds the converter loses
    nothing: two lists of scalar attributes with the same output are the
    same list, keys, kinds, values and order included. *)
Theorem scalar_attributes_injective (l1 l2 : list attribute.KeyValue) :
  forallb scalar l1 = true ->
  forallb scalar l2 = true ->
  attributesToAttrs l1 = attributesToAttrs l2 ->
  l1 = l2.
Proof.
  revert l2. induction l1 as [|a l1 IH]; intros l2 H1 H2 Heq.
  - destruct l2 as [|b l2]; [reflexivity|].
    cbn [forallb] in H2. apply andb_prop in H2 as [Hb _].
    rewrite attributesToAttrs_cons in Heq.
    destruct (convert_recognised b (scalar_recognised b Hb)) as [v Hv].
    rewrite Hv in Heq. discriminate Heq.
  - cbn [forallb] in H1. apply andb_prop in H1 as [Ha H1].
    destruct (convert_recognised a (scalar_recognised a Ha)) as [v Hv].
    destruct l2 as [|b l2].
    + rewrite attributesToAttrs_cons, Hv in Heq. discriminate Heq.
    + cbn [forallb] in H2. apply andb_prop in H2 as [Hb H2].
      destruct (convert_recognised b (scalar_recognised b Hb)) as [w Hw].
      rewrite !attributesToAttrs_cons in Heq.
      assert (Hab : convert a = convert b).
      { rewrite Hv, Hw in Heq |- *. inversion Heq. reflexivity. }
      rewrite Hv, Hw in Heq. inversion Heq as [[Hvw Hrest]].
      f_equal.
      * now apply convert_scalar_inj.
      * now apply IH.
Qed.

End MoreConverter.

(** * The helper of the tests *)

Section MoreParse.
Context {Row JsonError : Type} (Unmarshal : string -> Row + JsonError).

Import slogtrace_test.

Lemma Split_length (s : string) (sep : ascii) :
  List.length (Split s sep) = S (countByte sep s).
Proof.
  induction s as [|c s IH]; [reflexivity|].
  cbn [Split countByte].
  destruct (Ascii.eqb c sep).
  - simpl. now rewrite IH.
  - destruct (Split s sep) as [|piece pieces]; simpl in *; lia.
Qed.

Lemma Split_whole (s : string) (sep : ascii) :
  countByte sep s = 0%nat -> Split s sep = [s].
Proof.
  induction s as [|c s IH]; intro Hs; [reflexivity|].
  cbn [Split countByte] in *.
  destruct (Ascii.eqb c sep); [discriminate Hs|].
  now rewrite (IH Hs).
Qed.

Lemma Split_line (line rest : string) (sep : ascii) :
  countByte sep line = 0%nat ->
  Split (String.append line (String sep rest)) sep = line :: Split rest sep.
Proof.
  induction line as [|c line IH]; intro Hl.
  - cbn [String.append Split]. now rewrite Ascii.eqb_refl.
  - cbn [String.append Split countByte] in *.
    destruct (Ascii.eqb c sep); [discriminate Hl|].
    now rewrite (IH Hl).
Qed.

Lemma Split_joinLines (lines : list string) (tail : string) :
  Forall (fun line => countByte newline line = 0%nat) lines ->
  countByte newline tail = 0%nat ->
  Split (String.append (joinLines lines) tail) newline = lines ++ [tail].
Proof.
  intros Hlines Htail.
  induction Hlines as [|line lines Hline Hlines IH].
  - simpl. now apply Split_whole.
  - cbn [joinLines]. rewrite append_assoc.
    change (String.append (String newline (joinLines lines)) tail)
      with (String newline (String.append (joinLines lines) tail)).
    rewrite (Split_line _ _ _ Hline), IH. reflexivity.
Qed.

Lemma parseLines_data (jsonlines : list string) :
  forall data,
    parseLines Unmarshal jsonlines data =
    match parseLines Unmarshal jsonlines [] with
    | inl rows => inl (data ++ rows)
    | inr err => inr err
    end.
Proof.
  induction jsonlines as [|line rest IH]; intro data; cbn [parseLines].
  - now rewrite app_nil_r.
  - destruct (Unmarshal line) as [row|err]; [|reflexivity].
    rewrite (IH (data ++ [row])), (IH ([] ++ [row])).
    destruct (parseLines Unmarshal rest []) as [rows|err]; [|reflexivity].
    now rewrite <- app_assoc.
Qed.

(** X12: [parseLogLines] cannot panic on its slice expression, whatever
    the buffer, the empty one included; the lines it parses are as many as
    the newline bytes of the buffer. *)
Theorem parseLogLines_lines (buf : string) :
  exists jsonlines,
    parseLogLines Unmarshal buf = Some (parseLines Unmarshal jsonlines [])
    /\ List.length jsonlines = countByte newline buf.
Proof.
  unfold parseLogLines.
  pose proof (Split_length buf newline) as Hlen.
  destruct (Split buf newline) as [|piece pieces] eqn:Hs;
    [discriminate Hlen|].
  exists (removelast (piece :: pieces)). split; [reflexivity|].
  assert (Hrl : forall (l : list string),
             l <> [] -> S (List.length (removelast l)) = List.length l).
  { intros l Hl. destruct (exists_last Hl) as [l' [x ->]].
    rewrite removelast_last, length_app. simpl. lia. }
  specialize (Hrl (piece :: pieces)).
  assert (Hne : piece :: pieces <> []) by discriminate.
  specialize (Hrl Hne). lia.
Qed.

(** X13: on a buffer made of lines that each end with a newline, followed
    by a text without newline, [parseLogLines] parses the lines in order
    and never looks at the text after the last newline. *)
Theorem parseLogLines_complete_lines (lines : list string) (tail : string) :
  Forall (fun line => countByte newline line = 0%nat) lines ->
  countByte newline tail = 0%nat ->
  parseLogLines Unmarshal (String.append (joinLines lines) tail) =
  Some (parseLines Unmarshal lines []).
Proof.
  intros Hlines Htail. unfold parseLogLines.
  rewrite (Split_joinLines lines tail Hlines Htail).
  unfold dropLast.
  destruct (lines ++ [tail]) as [|x l] eqn:Hl.
  - destruct lines; discriminate Hl.
  - rewrite <- Hl, removelast_last. reflexivity.
Qed.

(** X14: the parsing loop gives the rows of all the lines in order, or
    else the error of the first line that does not parse, and then none of
    the rows parsed before it. *)
Theorem parseLines_result (jsonlines : list string) :
  (exists rows,
     parseLines Unmarshal jsonlines [] = inl rows /\
     Forall2 (fun line row => Unmarshal line = inl row) jsonlines rows)
  \/
  (exists pre line post rows err,
     jsonlines = pre ++ line :: post /\
     Forall2 (fun l row => Unmarshal l = inl row) pre rows /\
     Unmarshal line = inr err /\
     parseLines Unmarshal jsonlines [] = inr err).
Proof.
  induction jsonlines as [|line rest IH].
  - left. exists []. split; [reflexivity | constructor].
  - cbn [parseLines].
    destruct (Unmarshal line) as [row|err] eqn:Hu.
    + rewrite parseLines_data.
      destruct IH as [[rows [Hp Hf]] | [pre [l [post [rows [err [Hj [Hf [Hl Hp]]]]]]]]].
      * left. exists (row :: rows). rewrite Hp. split; [reflexivity|].
        now constructor.
      * right. exists (line :: pre), l, post, (row :: rows), err.
        rewrite Hp, Hj. repeat split; [now constructor | exact Hl].
    + right. exists [], line, rest, [], err.
      repeat split; [constructor | exact Hu].
Qed.

End MoreParse.

(** * Further concrete runs *)

(** [demoBatch] against a handler that accepts everything: three calls. *)
Lemma record_count_witness :
  slogtrace.stopped activeExporter = false
  /\ fst (slogtrace.ExportSpans activeExporter context.Background demoBatch
            (demoBackend 5)) = None
  /\ List.length
       (slogtrace.calls
          (snd (slogtrace.ExportSpans activeExporter context.Background
                  demoBatch (demoBackend 5)))) = 3%nat.
Proof.
  split; [reflexivity|]. split; [reflexivity|].
  exact (proj2 (@record_count demoEnv activeExporter context.Background
                  demoBatch (demoBackend 5) eq_refl eq_refl)).
Defined.

(** [demoBatch] against a handler that fails on its second call. *)
Lemma export_outcome_witness :
  slogtrace.stopped activeExporter = false
  /\ ((fst (slogtrace.ExportSpans activeExporter context.Background
              demoBatch (demoBackend 1)) = None /\
       slogtrace.calls
         (snd (slogtrace.ExportSpans activeExporter context.Background
                 demoBatch (demoBackend 1))) =
       slogtrace.calls (demoBackend 1) ++
       map accepted
           (slices.SortStableFunc slogtrace.compareRecords
              (slogtrace.buildRecords demoBatch)))
      \/
      (exists pre r post err,
         slices.SortStableFunc slogtrace.compareRecords
           (slogtrace.buildRecords demoBatch) = pre ++ r :: post /\
         fst (slogtrace.ExportSpans activeExporter context.Background
                demoBatch (demoBackend 1)) = Some err /\
         slogtrace.calls
           (snd (slogtrace.ExportSpans activeExporter context.Background
                   demoBatch (demoBackend 1))) =
         slogtrace.calls (demoBackend 1) ++
         map accepted pre ++ [(r, Some err)])).
Proof.
  split; [reflexivity|].
  exact (@export_outcome demoEnv activeExporter context.Background
           demoBatch (demoBackend 1) eq_refl).
Defined.

(** The demo handler does not read the context: a cancelled context
    changes nothing. *)
Lemma context_only_forwarded_witness :
  (forall r h,
     @Handle demoEnv context.Background r h =
     @Handle demoEnv (context.Finished Canceled) r h)
  /\ slogtrace.ExportSpans activeExporter context.Background demoBatch
       (demoBackend 5) =
     slogtrace.ExportSpans activeExporter (context.Finished Canceled)
       demoBatch (demoBackend 5).
Proof.
  assert (Hctx : forall r h,
            @Handle demoEnv context.Background r h =
            @Handle demoEnv (context.Finished Canceled) r h)
    by (intros r h; reflexivity).
  split; [exact Hctx|].
  exact (@context_only_forwarded demoEnv activeExporter context.Background
           (context.Finished Canceled) demoBatch (demoBackend 5) Hctx).
Defined.

(** The records of [demoSpan] are built in timestamp order. *)
Lemma sorted_batch_keeps_traversal_order_witness :
  slogtrace.stopped activeExporter = false
  /\ StronglySorted (fun t1 t2 => time.Before t2 t1 = false)
                    (batchTimes [demoSpan])
  /\ slices.SortStableFunc slogtrace.compareRecords
       (slogtrace.buildRecords [demoSpan]) =
     slogtrace.buildRecords [demoSpan].
Proof.
  assert (Hs : StronglySorted (fun t1 t2 => time.Before t2 t1 = false)
                              (batchTimes [demoSpan])).
  { repeat constructor. }
  split; [reflexivity|]. split; [exact Hs|].
  exact (proj1 (@sorted_batch_keeps_traversal_order demoEnv activeExporter
                  context.Background [demoSpan] (demoBackend 5)
                  eq_refl Hs)).
Defined.

(** [demoBatch], then a batch whose span starts before all of it: the
    late span's record comes last. *)
Lemma successive_batches_witness :
  slogtrace.stopped activeExporter = false
  /\ slogtrace.ExportSpans activeExporter context.Background demoBatch
       (demoBackend 5) =
     (None,
      snd (slogtrace.ExportSpans activeExporter context.Background demoBatch
             (demoBackend 5)))
  /\ fst (slogtrace.ExportSpans activeExporter context.Background
            [demoLateSpan]
            (snd (slogtrace.ExportSpans activeExporter context.Background
                    demoBatch (demoBackend 5)))) = None
  /\ slogtrace.attempted
       (snd (slogtrace.ExportSpans activeExporter context.Background
               [demoLateSpan]
               (snd (slogtrace.ExportSpans activeExporter context.Background
                       demoBatch (demoBackend 5))))) =
     slogtrace.attempted (demoBackend 5) ++
     slices.SortStableFunc slogtrace.compareRecords
       (slogtrace.buildRecords demoBatch) ++
     slices.SortStableFunc slogtrace.compareRecords
       (slogtrace.buildRecords [demoLateSpan]).
Proof.
  split; [reflexivity|]. split; [reflexivity|]. split; [reflexivity|].
  exact (@successive_batches demoEnv activeExporter context.Background
           context.Background demoBatch [demoLateSpan] (demoBackend 5)
           (snd (slogtrace.ExportSpans activeExporter context.Background
                   demoBatch (demoBackend 5)))
           eq_refl eq_refl eq_refl).
Defined.

(** A list of scalar attributes, with a repeated key. *)
Lemma scalar_attributes_injective_witness :
  forallb scalar
    [attribute.mkKeyValue "k" (attribute.BoolValue true);
     attribute.mkKeyValue "k" (attribute.StringValue "true")] = true
  /\ [attribute.mkKeyValue "k" (attribute.BoolValue true);
      attribute.mkKeyValue "k" (attribute.StringValue "true")] =
     [attribute.mkKeyValue "k" (attribute.BoolValue true);
      attribute.mkKeyValue "k" (attribute.StringValue "true")].
Proof.
  split; [reflexivity|].
  exact (@scalar_attributes_injective demoEnv
           [attribute.mkKeyValue "k" (attribute.BoolValue true);
            attribute.mkKeyValue "k" (attribute.StringValue "true")]
           [attribute.mkKeyValue "k" (attribute.BoolValue true);
            attribute.mkKeyValue "k" (attribute.StringValue "true")]
           eq_refl eq_refl eq_refl).
Defined.

(** Two complete lines and the beginning of a third. *)
Lemma parseLogLines_complete_lines_witness :
  Forall (fun line => slogtrace_test.countByte slogtrace_test.newline line
                      = 0%nat) ["a"; "b"]
  /\ slogtrace_test.countByte slogtrace_test.newline "partial" = 0%nat
  /\ slogtrace_test.parseLogLines slogtrace_test.demoUnmarshal
       (String.append (slogtrace_test.joinLines ["a"; "b"]) "partial") =
     Some (inl ["a"; "b"]).
Proof.
  assert (Hlines :
    Forall (fun line => slogtrace_test.countByte slogtrace_test.newline line
                        = 0%nat) ["a"; "b"])
    by (repeat constructor).
  split; [exact Hlines|]. split; [reflexivity|].
  exact (parseLogLines_complete_lines slogtrace_test.demoUnmarshal
           ["a"; "b"] "partial" Hlines eq_refl).
Defined.

(** * Delivery order and the two clocks *)

Lemma StronglySorted_weaken {A : Type} (R R' : A -> A -> Prop) (l : list A) :
  (forall a b, In a l -> In b l -> R a b -> R' a b) ->
  StronglySorted R l -> StronglySorted R' l.
Proof.
  induction l as [|x l IH]; intros Himp Hs; [constructor|].
  apply StronglySorted_inv in Hs as [Hs Hx].
  constructor.
  - apply IH; [|exact Hs].
    intros a b Ha Hb. apply Himp; now right.
  - rewrite Forall_forall in *. intros y Hy.
    apply Himp; [now left | now right | now apply Hx].
Qed.

Section OneClock.
Context `{Env}.

Import slogtrace.

(** X15: on an active exporter whose handler accepts every record, for a
    batch whose timestamps all carry a monotonic reading or of which none
    does, an export returns [nil] and has handed the handler every record
    of the batch, one per span and one per event, in an order in which no
    record is before a record handed over earlier, and the records of one
    clock reading are in the order in which the build traversal met
    them. *)
Theorem export_order_one_clock (e : Exporter) (ctx : context.Context)
    (spans : list trace.ReadOnlySpan) (b : Backend) :
  stopped e = false ->
  oneClock (batchTimes spans) = true ->
  (forall r h, snd (Handle ctx r h) = None) ->
  fst (ExportSpans e ctx spans b) = None
  /\ exists new,
    attempted (snd (ExportSpans e ctx spans b)) = attempted b ++ new
    /\ Permutation new (flat_map recordsOf spans)
    /\ StronglySorted
         (fun r1 r2 => time.Before (slog.Time r2) (slog.Time r1) = false)
         new
    /\ (forall t,
          filter (hasKey recordReading t) new =
          filter (hasKey recordReading t) (flat_map recordsOf spans)).
Proof.
  intros He Hone Hacc.
  pose proof (ExportSpans_accepting e ctx spans b Hacc) as Hok.
  split; [exact Hok|].
  exists (slices.SortStableFunc compareRecords (buildRecords spans)).
  split; [now apply ExportSpans_delivers_sorted|].
  rewrite <- buildRecords_times in Hone.
  rewrite (compareRecords_oneClock _ Hone).
  rewrite <- buildRecords_flat_map.
  pose proof (SortStableFunc_perm compareReadings (buildRecords spans))
    as Hperm.
  split; [now symmetry|].
  split.
  - apply (StronglySorted_weaken
             (fun a b => recordReading a <= recordReading b)).
    + intros r1 r2 H1 H2 Hle.
      assert (Hsame : time.hasMonotonic (slog.Time r2) =
                      time.hasMonotonic (slog.Time r1)).
      { apply (oneClock_same (map slog.Time (buildRecords spans)));
          [exact Hone | |]; apply in_map;
          apply (Permutation_in _ (Permutation_sym Hperm)); assumption. }
      rewrite (Before_clockReading _ _ Hsame).
      apply Z.ltb_ge. exact Hle.
    + apply (SortStableFunc_sorted compareReadings recordReading
               compareReadings_key).
  - intro t.
    apply (SortStableFunc_stable compareReadings recordReading
             compareReadings_key).
Qed.

End OneClock.


(** C2: on the batch [A; B; C], where [A] and [C] carry monotonic readings
    and [B] does not, the exporter hands the handler [B], [A], [C].  The
    record of [C] comes last although [C] is before [B] in the sense of
    [Before] and has the least wall clock reading of the three: the
    records are not delivered in non-decreasing timestamp order. *)
Theorem export_order_mixed_clocks :
  fst (slogtrace.ExportSpans activeExporter context.Background
         mixedClockBatch (demoBackend 5)) = None
  /\ map slog.Message
         (slogtrace.attempted
            (snd (slogtrace.ExportSpans activeExporter context.Background
                    mixedClockBatch (demoBackend 5)))) = ["B"; "A"; "C"]
  /\ map (fun r => time.wall (slog.Time r))
         (slogtrace.attempted
            (snd (slogtrace.ExportSpans activeExporter context.Background
                    mixedClockBatch (demoBackend 5)))) = [950; 1000; 900]
  /\ time.Before (trace.StartTime spanC) (trace.StartTime spanB) = true
  /\ time.Before (trace.StartTime spanB) (trace.StartTime spanA) = true
  /\ time.Before (trace.StartTime spanA) (trace.StartTime spanC) = true.
Proof. repeat split; reflexivity. Qed.

(** A span of two seconds with an event and a span of one and a half
    milliseconds, against the handler that accepts everything. *)
Lemma duration_attribute_witness :
  slogtrace.stopped activeExporter = false
  /\ (forall r h, snd (@Handle acceptingEnv context.Background r h) = None)
  /\ map (fun r => (slog.Message r, slog.Attrs r))
         (slogtrace.attempted
            (snd (slogtrace.ExportSpans activeExporter context.Background
                    durationBatch acceptingBackend))) =
     [("slow", [slog.String "duration" "2s"; slog.String "k" "v"]);
      ("quick", [slog.String "duration" "1.5ms"]);
      ("tick", [slog.Int64 "n" 1])]
  /\ fst (slogtrace.ExportSpans activeExporter context.Background
            durationBatch acceptingBackend) = None
  /\ exists new,
       slogtrace.attempted
         (snd (slogtrace.ExportSpans activeExporter context.Background
                 durationBatch acceptingBackend)) =
       slogtrace.attempted acceptingBackend ++ new
       /\ Permutation
            (map (fun r => (slog.Message r, slog.Attrs r)) new)
            [("slow", [slog.String "duration" "2s"; slog.String "k" "v"]);
             ("tick", [slog.Int64 "n" 1]);
             ("quick", [slog.String "duration" "1.5ms"])].
Proof.
  assert (Hacc : forall r h,
            snd (@Handle acceptingEnv context.Background r h) = None)
    by (intros r h; reflexivity).
  split; [reflexivity|]. split; [exact Hacc|]. split; [reflexivity|].
  destruct (@duration_attribute acceptingEnv activeExporter
              context.Background durationBatch acceptingBackend
              eq_refl Hacc)
    as [Hok [new [Hatt [Hperm _]]]].
  split; [exact Hok|].
  exists new. split; [exact Hatt | exact Hperm].
Defined.

(** The same batch: the span with the error status gives the level error,
    the other span and its event the level info. *)
Lemma severity_mapping_witness :
  slogtrace.stopped activeExporter = false
  /\ (forall r h, snd (@Handle acceptingEnv context.Background r h) = None)
  /\ map (fun r => (slog.Message r, slog.Level_ r))
         (slogtrace.attempted
            (snd (slogtrace.ExportSpans activeExporter context.Background
                    durationBatch acceptingBackend))) =
     [("slow", 0); ("quick", 8); ("tick", 0)]
  /\ fst (slogtrace.ExportSpans activeExporter context.Background
            durationBatch acceptingBackend) = None
  /\ exists new,
       slogtrace.attempted
         (snd (slogtrace.ExportSpans activeExporter context.Background
                 durationBatch acceptingBackend)) =
       slogtrace.attempted acceptingBackend ++ new
       /\ Permutation
            (map (fun r => (slog.Message r, slog.Level_ r)) new)
            [("slow", slog.LevelInfo); ("tick", slog.LevelInfo);
             ("quick", slog.LevelError)].
Proof.
  assert (Hacc : forall r h,
            snd (@Handle acceptingEnv context.Background r h) = None)
    by (intros r h; reflexivity).
  split; [reflexivity|]. split; [exact Hacc|]. split; [reflexivity|].
  destruct (@severity_mapping acceptingEnv activeExporter
              context.Background durationBatch acceptingBackend
              eq_refl Hacc)
    as [Hok [new [Hatt [Hperm _]]]].
  split; [exact Hok|].
  exists new. split; [exact Hatt | exact Hperm].
Defined.

(** The same batch, whose timestamps all carry monotonic readings. *)
Lemma export_order_one_clock_witness :
  slogtrace.stopped activeExporter = false
  /\ oneClock (batchTimes durationBatch) = true
  /\ (forall r h, snd (@Handle acceptingEnv context.Background r h) = None)
  /\ map slog.Message
         (slogtrace.attempted
            (snd (slogtrace.ExportSpans activeExporter context.Background
                    durationBatch acceptingBackend))) =
     ["slow"; "quick"; "tick"]
  /\ fst (slogtrace.ExportSpans activeExporter context.Background
            durationBatch acceptingBackend) = None
  /\ exists new,
       slogtrace.attempted
         (snd (slogtrace.ExportSpans activeExporter context.Background
                 durationBatch acceptingBackend)) =
       slogtrace.attempted acceptingBackend ++ new
       /\ StronglySorted
            (fun r1 r2 => time.Before (slog.Time r2) (slog.Time r1) = false)
            new.
Proof.
  assert (Hacc : forall r h,
            snd (@Handle acceptingEnv context.Background r h) = None)
    by (intros r h; reflexivity).
  split; [reflexivity|]. split; [reflexivity|]. split; [exact Hacc|].
  split; [reflexivity|].
  destruct (@export_order_one_clock acceptingEnv activeExporter
              context.Background durationBatch acceptingBackend
              eq_refl eq_refl Hacc)
    as [Hok [new [Hatt [_ [Hsorted _]]]]].
  split; [exact Hok|].
  exists new. split; [exact Hatt | exact Hsorted].
Defined.
